(** * Spaced-repetition scheduler of the chess trainer

    A shallow embedding of the scheduling code of
    [SpacedRepetitionTrainer] (interval table, mastery evaluator,
    days-since computation, due-ness classification, priority, queue
    construction, initialisation, the auto-reveal logic, the queue
    counters and the advance through the queue), of the bookkeeping of
    [ChessboardTrainer] (problem identifiers, attempts, solved flags,
    session counters, navigation) and of the progress shown by [App],
    followed by the properties established about them. *)

From Stdlib Require Import ZArith List Bool Lia Ascii DecimalString.
From Stdlib Require DecimalZ.
From stdpp Require Import base gmap strings list sorting.

Open Scope Z_scope.

(** ** JavaScript numbers

    The scheduler's arithmetic leaves the integers in two ways only:
    [Infinity] (returned by [calculateDaysSince]) and [NaN] (the time
    value of an invalid [Date]).  Finite values are integers throughout
    (millisecond time values, day counts, scores), so a finite number is
    a [Z]; rounding of doubles is not modelled. *)
Module JS.

Inductive num : Type :=
| Fin (z : Z)
| PosInf
| NegInf
| NaN.

Definition neg (a : num) : num :=
  match a with
  | Fin z => Fin (- z)
  | PosInf => NegInf
  | NegInf => PosInf
  | NaN => NaN
  end.

(** [a + b] *)
Definition add (a b : num) : num :=
  match a, b with
  | NaN, _ | _, NaN => NaN
  | Fin x, Fin y => Fin (x + y)
  | PosInf, NegInf | NegInf, PosInf => NaN
  | PosInf, _ | _, PosInf => PosInf
  | NegInf, _ | _, NegInf => NegInf
  end.

(** [a - b] *)
Definition sub (a b : num) : num := add a (neg b).

(** [a * b] *)
Definition mul (a b : num) : num :=
  match a, b with
  | NaN, _ | _, NaN => NaN
  | Fin x, Fin y => Fin (x * y)
  | Fin x, PosInf | PosInf, Fin x =>
      if x =? 0 then NaN else if 0 <? x then PosInf else NegInf
  | Fin x, NegInf | NegInf, Fin x =>
      if x =? 0 then NaN else if 0 <? x then NegInf else PosInf
  | PosInf, PosInf | NegInf, NegInf => PosInf
  | PosInf, NegInf | NegInf, PosInf => NegInf
  end.

(** [Math.abs(a)] *)
Definition abs (a : num) : num :=
  match a with
  | Fin z => Fin (Z.abs z)
  | PosInf | NegInf => PosInf
  | NaN => NaN
  end.

(** [Math.floor(a / d)] for a positive integer constant [d]. *)
Definition floor_div (a : num) (d : Z) : num :=
  match a with
  | Fin z => Fin (z / d)
  | other => other
  end.

(** [a > b]: false as soon as one side is [NaN]. *)
Definition gt (a b : num) : bool :=
  match a, b with
  | NaN, _ | _, NaN => false
  | Fin x, Fin y => y <? x
  | PosInf, PosInf => false
  | PosInf, _ => true
  | _, PosInf => false
  | NegInf, _ => false
  | Fin _, NegInf => true
  end.

(** [a >= b]: false as soon as one side is [NaN]. *)
Definition ge (a b : num) : bool :=
  match a, b with
  | NaN, _ | _, NaN => false
  | Fin x, Fin y => y <=? x
  | PosInf, _ => true
  | _, NegInf => true
  | _, PosInf => false
  | NegInf, _ => false
  end.

End JS.

Coercion JS.Fin : Z >-> JS.num.

(** ** Data model *)

(** A corpus position, with the fields the scheduler reads.  [ref] stands
    for the identity of the JavaScript object: [Array.prototype.indexOf]
    compares object references, not contents. *)
Record Position : Type := mkPosition {
  ref : nat;
  fen : string;
  player_move : string;
  best_move : string;
  error_type : option string
}.

(** The [last_attempt] field of a stored record, as [calculateDaysSince]
    sees it: a falsy value ([null], [undefined], the empty string), a
    string that [new Date] cannot parse (an invalid date, whose time
    value is [NaN]; the constructor does not throw), or a string parsed
    to a time value in milliseconds. *)
Inductive LastAttempt : Type :=
| LaFalsy
| LaInvalid
| LaTime (ms : Z).

(** One entry of [problemStats].  [solved] and [first_try_solved] are the
    truthiness of the stored values.  [attempts] is a count; the code
    reads it only through [attempts || 1] and [attempts || 0], which do
    not tell a missing field from the count 0, so a missing [attempts]
    is the count [0] here. *)
Record ProblemStat : Type := mkProblemStat {
  solved : bool;
  attempts : N;
  first_try_solved : bool;
  last_attempt : LastAttempt
}.

(** ** Interval table *)

(** [REPETITION_INTERVALS] *)
Definition REPETITION_INTERVALS : gmap Z Z :=
  list_to_map
    [ (0, 0); (1, 1); (2, 3); (3, 7); (4, 14); (5, 30); (6, 90); (7, 180); (8, 365) ].

(** [v || d] on an optional number: [undefined] and [0] are falsy. *)
Definition or_default (v : option Z) (d : Z) : Z :=
  match v with
  | Some x => if x =? 0 then d else x
  | None => d
  end.

(** [REPETITION_INTERVALS[masteryLevel] || 0] *)
Definition intervalDaysOf (masteryLevel : Z) : Z :=
  or_default (REPETITION_INTERVALS !! masteryLevel) 0.

(** ** Mastery evaluator *)

(** [calculateMasteryLevel].  Every call site passes a record that passed
    the [if (!problemStat)] test, so the argument is a present record. *)
Definition calculateMasteryLevel (problemStat : ProblemStat) : Z :=
  if negb (solved problemStat) then 0
  else
    let attempts := or_default (Some (Z.of_N (attempts problemStat))) 1 in
    let firstTrySolved := first_try_solved problemStat in
    if firstTrySolved then Z.min 3 attempts
    else Z.min 2 (attempts / 2).

(** ** Days since the last attempt *)

Definition MS_PER_DAY : Z := 1000 * 60 * 60 * 24.

(** Time value of [new Date(lastAttemptStr)] for a truthy string. *)
Definition date_time_value (la : LastAttempt) : JS.num :=
  match la with
  | LaTime ms => JS.Fin ms
  | _ => JS.NaN
  end.

(** [calculateDaysSince]; [now] is the time value of [new Date()].  The
    [catch] branch is not reachable: neither the constructor nor the
    arithmetic throws. *)
Definition calculateDaysSince (now : Z) (lastAttemptStr : LastAttempt) : JS.num :=
  match lastAttemptStr with
  | LaFalsy => JS.PosInf
  | _ =>
      let lastAttempt := date_time_value lastAttemptStr in
      let diffTime := JS.abs (JS.sub now lastAttempt) in
      let diffDays := JS.floor_div diffTime MS_PER_DAY in
      diffDays
  end.

(** ** Priority *)

(** [calculatePriority] *)
Definition calculatePriority (problemStat : ProblemStat)
    (daysSinceLastSeen : JS.num) (intervalDays : Z) : JS.num :=
  let priority : JS.num := 100 in
  let priority :=
    if JS.gt daysSinceLastSeen intervalDays
    then JS.add priority (JS.mul (JS.sub daysSinceLastSeen intervalDays) 10)
    else priority in
  let priority :=
    if negb (solved problemStat) then JS.add priority 50 else priority in
  let priority :=
    JS.add priority
      (JS.mul (or_default (Some (Z.of_N (attempts problemStat))) 0) 5) in
  let masteryLevel := calculateMasteryLevel problemStat in
  let priority := JS.sub priority (JS.mul masteryLevel 20) in
  priority.

(** ** Problem identifiers *)

(** Decimal rendering of an integer inside a template literal. *)
Definition string_of_Z (z : Z) : string := NilZero.string_of_int (Z.to_int z).

(** The template [`${position.fen}_${position.player_move}_${index}`],
    written out in [calculateSpacedRepetitionQueue] and in
    [handlePositionComplete], and the body of [getProblemId]. *)
Definition getProblemId (position : Position) (index : Z) : string :=
  fen position +:+ "_" +:+ player_move position +:+ "_" +:+ string_of_Z index.

(** [positions.indexOf(position)]: first index holding the same object,
    [-1] when there is none. *)
Fixpoint indexOf_from (positions : list Position) (position : Position) (i : Z) : Z :=
  match positions with
  | [] => -1
  | p :: rest =>
      if Nat.eqb (ref p) (ref position) then i
      else indexOf_from rest position (i + 1)
  end.

Definition indexOf (positions : list Position) (position : Position) : Z :=
  indexOf_from positions position 0.

(** ** Due-ness classification *)

Inductive Bucket : Type := New | Due | NotDue.

#[global] Instance Bucket_eq_dec : EqDecision Bucket.
Proof. solve_decision. Defined.

(** The objects pushed on [newProblems], [dueProblems] and
    [notDueProblems].  New items carry neither [masteryLevel] nor
    [daysSinceLastSeen]. *)
Record QueueItem : Type := mkQueueItem {
  position : Position;
  index : nat;
  priority : JS.num;
  masteryLevel : option Z;
  daysSinceLastSeen : option JS.num;
  isNew : bool
}.

(** Body of the classification loop of [calculateSpacedRepetitionQueue]
    for the position at index [i]: the bucket whose array receives the
    item, and the item.  [now] is the clock read by [calculateDaysSince]
    during this iteration. *)
Definition classify (problemStats : gmap string ProblemStat) (now : Z)
    (i : nat) (position : Position) : Bucket * QueueItem :=
  let problemId := getProblemId position (Z.of_nat i) in
  match problemStats !! problemId with
  | None =>
      (New, mkQueueItem position i 0 None None true)
  | Some problemStat =>
      let masteryLevel := calculateMasteryLevel problemStat in
      let daysSinceLastSeen := calculateDaysSince now (last_attempt problemStat) in
      let intervalDays := intervalDaysOf masteryLevel in
      if JS.ge daysSinceLastSeen intervalDays || (masteryLevel =? 0) then
        let priority := calculatePriority problemStat daysSinceLastSeen intervalDays in
        (Due, mkQueueItem position i priority (Some masteryLevel)
                (Some daysSinceLastSeen) false)
      else
        (NotDue, mkQueueItem position i (-1) (Some masteryLevel)
                   (Some daysSinceLastSeen) false)
  end.

Record Buckets : Type := mkBuckets {
  newProblems : list QueueItem;
  dueProblems : list QueueItem;
  notDueProblems : list QueueItem
}.

(** [array.push(item)] on the array selected by the bucket. *)
Definition push (acc : Buckets) (c : Bucket * QueueItem) : Buckets :=
  match fst c with
  | New => mkBuckets (newProblems acc ++ [snd c]) (dueProblems acc) (notDueProblems acc)
  | Due => mkBuckets (newProblems acc) (dueProblems acc ++ [snd c]) (notDueProblems acc)
  | NotDue => mkBuckets (newProblems acc) (dueProblems acc) (notDueProblems acc ++ [snd c])
  end.

(** The [for (let i = 0; i < allPositions.length; i++)] loop, from index
    [i] on; [clock i] is the wall clock during iteration [i]. *)
Fixpoint classify_loop (problemStats : gmap string ProblemStat) (clock : nat -> Z)
    (i : nat) (rest : list Position) (acc : Buckets) : Buckets :=
  match rest with
  | [] => acc
  | position :: rest' =>
      classify_loop problemStats clock (S i) rest'
        (push acc (classify problemStats (clock i) i position))
  end.

(** ** Ranking *)

(** The comparator [(a, b) => b.priority - a.priority]. *)
Definition compareFn (a b : QueueItem) : JS.num :=
  JS.sub (priority b) (priority a).

(** [Array.prototype.sort] is stable; it is modelled by stable
    insertion: [x] stood before every element of the sorted rest and
    moves behind [y] only when the comparator is positive. *)
Fixpoint sort_insert (x : QueueItem) (sorted : list QueueItem) : list QueueItem :=
  match sorted with
  | [] => [x]
  | y :: rest =>
      if JS.gt (compareFn x y) 0 then y :: sort_insert x rest
      else x :: y :: rest
  end.

Fixpoint sort (l : list QueueItem) : list QueueItem :=
  match l with
  | [] => []
  | x :: rest => sort_insert x (sort rest)
  end.

(** ** Shuffle *)

(** A value of [Math.random()]: a fraction in [0, 1). *)
Record Draw : Type := mkDraw {
  num : nat;
  den : nat;
  in_unit : (num <? den)%nat = true
}.

(** [Math.floor(Math.random() * (i + 1))] *)
Definition random_index (r : Draw) (i : nat) : nat :=
  (num r * (i + 1) / den r)%nat.

(** [[a[i], a[j]] = [a[j], a[i]]] for indices inside the array. *)
Definition swap {A : Type} (a : list A) (i j : nat) : list A :=
  match a !! i, a !! j with
  | Some ai, Some aj => <[j:=ai]> (<[i:=aj]> a)
  | _, _ => a
  end.

(** The loop [for (let i = shuffled.length - 1; i > 0; i--)]; [random k]
    is the [k]-th value drawn from [Math.random]. *)
Fixpoint shuffle_loop {A : Type} (random : nat -> Draw) (k : nat) (i : nat)
    (shuffled : list A) : list A :=
  match i with
  | O => shuffled
  | S i' =>
      let j := random_index (random k) i in
      shuffle_loop random (S k) i' (swap shuffled i j)
  end.

(** [shuffleArray] *)
Definition shuffleArray {A : Type} (random : nat -> Draw) (array : list A) : list A :=
  shuffle_loop random 0 (length array - 1) array.

(** ** Queue builder *)

Record QueueInfo : Type := mkQueueInfo {
  qi_due : nat;
  qi_new : nat;
  qi_total : nat
}.

Definition maxNewProblems : nat := 10.
Definition maxReviewProblems : nat := 50.

(** [allSelected] of [calculateSpacedRepetitionQueue]: the capped ranked
    due items followed by the capped new items. *)
Definition allSelected (problemStats : gmap string ProblemStat) (clock : nat -> Z)
    (allPositions : list Position) : list QueueItem :=
  let b := classify_loop problemStats clock 0 allPositions (mkBuckets [] [] []) in
  let dueProblems := sort (dueProblems b) in
  let selectedNew := take maxNewProblems (newProblems b) in
  let selectedDue := take maxReviewProblems dueProblems in
  selectedDue ++ selectedNew.

(** [shuffled] of [calculateSpacedRepetitionQueue]. *)
Definition shuffledQueue (problemStats : gmap string ProblemStat) (clock : nat -> Z)
    (random : nat -> Draw) (allPositions : list Position) : list QueueItem :=
  shuffleArray random (allSelected problemStats clock allPositions).

(** [calculateSpacedRepetitionQueue]: the returned positions and the
    value given to [setQueueInfo]. *)
Definition calculateSpacedRepetitionQueue (problemStats : gmap string ProblemStat)
    (clock : nat -> Z) (random : nat -> Draw) (allPositions : list Position)
    : list Position * QueueInfo :=
  let b := classify_loop problemStats clock 0 allPositions (mkBuckets [] [] []) in
  (map position (shuffledQueue problemStats clock random allPositions),
   mkQueueInfo (length (dueProblems b)) (length (newProblems b)) (length allPositions)).

(** ** Corpus filter and initialisation *)

(** The values of the [errorTypeFilter] state. *)
Inductive ErrorTypeFilter : Type := FilterAll | FilterBlunder | FilterMistake.

(** [String.prototype.toLowerCase] on the ASCII range, which holds the
    error-type labels of the corpus. *)
Definition lower_ascii (c : ascii) : ascii :=
  let n := nat_of_ascii c in
  if ((65 <=? n) && (n <=? 90))%nat then ascii_of_nat (n + 32) else c.

Fixpoint toLowerCase (s : string) : string :=
  match s with
  | EmptyString => EmptyString
  | String c rest => String (lower_ascii c) (toLowerCase rest)
  end.

(** [getFilteredPositions] *)
Definition getFilteredPositions (positions : list Position)
    (errorTypeFilter : ErrorTypeFilter) : list Position :=
  match errorTypeFilter with
  | FilterAll => positions
  | _ =>
      let wanted : string :=
        match errorTypeFilter with FilterBlunder => "blunder" | _ => "mistake" end in
      List.filter
        (fun pos =>
           match error_type pos with
           | Some e => String.eqb (toLowerCase e) wanted
           | None => false
           end)
        positions
  end.

(** What [checkBackendAvailability] and [getStats] deliver: no backend,
    or the [problemStats] of the statistics ([getStats] answers with
    empty default statistics when its request fails). *)
Inductive Backend : Type :=
| Offline
| Online (problemStats : gmap string ProblemStat).

(** The state written by [initializeSpacedRepetition]. *)
Record Session : Type := mkSession {
  currentPositions : list Position;
  solvedArr : list bool;
  attemptsArr : list nat;
  isBackendAvailable : bool;
  queueInfo : option QueueInfo
}.

(** [initializeSpacedRepetition], the [try] block.  [queueInfo] is [None]
    when [setQueueInfo] is not called. *)
Definition initializeSpacedRepetition (positions : list Position)
    (errorTypeFilter : ErrorTypeFilter) (backend : Backend)
    (clock : nat -> Z) (random : nat -> Draw) : Session :=
  let filteredPositions := getFilteredPositions positions errorTypeFilter in
  match backend with
  | Offline =>
      let n := Nat.min 20 (length filteredPositions) in
      mkSession (take 20 filteredPositions) (replicate n false) (replicate n 0%nat)
        false None
  | Online problemStats =>
      let '(scheduledPositions, info) :=
        calculateSpacedRepetitionQueue problemStats clock random filteredPositions in
      let n := length scheduledPositions in
      mkSession scheduledPositions (replicate n false) (replicate n 0%nat) true (Some info)
  end.

(** ** Identifiers used when results are recorded *)

(** The [problemId] of [handlePositionComplete]: the index is looked up
    in the [positions] prop, the unfiltered corpus. *)
Definition completionProblemId (positions currentPositions : list Position)
    (currentIndex : nat) : option string :=
  match currentPositions !! currentIndex with
  | Some position => Some (getProblemId position (indexOf positions position))
  | None => None
  end.

(** The [problemId] of [onPieceDrop] in [ChessboardTrainer], whose
    [positions] prop is the trainer's [currentPositions] and whose
    [current] is the place in that queue. *)
Definition attemptProblemId (currentPositions : list Position) (current : nat)
    : option string :=
  match currentPositions !! current with
  | Some pos => Some (getProblemId pos (Z.of_nat current))
  | None => None
  end.

(** ** One exposure of a position *)

Definition MAX_ATTEMPTS : nat := 3.

(** Callbacks waiting to run during an exposure: the [setTimeout]
    callbacks, and the rest of [handlePositionComplete] behind its
    [await] of the store request. *)
Inductive Pending : Type :=
| RevealSolution                          (* handleIncorrectAttempt, 1000 ms *)
| CompleteAutoRevealed                    (* inside the former, 4000 ms *)
| CompleteSolved                          (* effect of SpacedRepetitionChessboard, 2000 ms *)
| RecordReturned (wasAutoRevealed : bool) (* handlePositionComplete after its await *)
| Advance.                                (* handlePositionComplete, 3000 or 1500 ms *)

(** The state of the trainer and of its chessboard for the position in
    the active slot, the pending callbacks with the times at which they
    are due, and the calls of
    [handlePositionComplete(wasCorrect, wasAutoRevealed)] made so far.
    A move is handled after the render that follows the previous event,
    so its closures see this state.  A pending callback keeps the
    closures of the render that registered it; what it reads from them
    ([solved] to copy it, [currentIndex]) does not depend on the events
    in between, and it changes the state through the setters. *)
Record Exposure : Type := mkExposure {
  time : Z;
  attemptsHere : nat;             (* attempts[currentIndex] *)
  autoRevealTriggered : bool;
  solvedHere : bool;              (* solved[currentIndex] *)
  previousSolvedState : bool;
  showAutoRevealMessage : bool;
  timers : list (Z * Pending);
  completions : list (bool * bool);
  ended : bool                    (* the queue has advanced *)
}.

Definition freshExposure (t : Z) : Exposure :=
  mkExposure t 0 false false false false [] [] false.

(** [setTimeout(cb, delay)] *)
Definition setTimeout (cb : Pending) (delay : Z) (s : Exposure) : Exposure :=
  mkExposure (time s) (attemptsHere s) (autoRevealTriggered s) (solvedHere s)
    (previousSolvedState s) (showAutoRevealMessage s)
    (timers s ++ [(time s + delay, cb)]) (completions s) (ended s).

(** [handlePositionComplete] up to its [await]: the completion is
    counted and the store request is sent; the request returns after
    [latency] ms (at once when no request is made). *)
Definition handlePositionComplete (latency : N) (wasCorrect wasAutoRevealed : bool)
    (s : Exposure) : Exposure :=
  setTimeout (RecordReturned wasAutoRevealed) (Z.of_N latency)
    (mkExposure (time s) (attemptsHere s) (autoRevealTriggered s) (solvedHere s)
       (previousSolvedState s) (showAutoRevealMessage s) (timers s)
       (completions s ++ [(wasCorrect, wasAutoRevealed)]) (ended s)).

(** [handlePositionComplete] after its [await]: the auto-reveal flag is
    reset and the advance is scheduled. *)
Definition afterRecord (wasAutoRevealed : bool) (s : Exposure) : Exposure :=
  setTimeout Advance (if wasAutoRevealed then 3000 else 1500)
    (mkExposure (time s) (attemptsHere s) false (solvedHere s)
       (previousSolvedState s) (showAutoRevealMessage s) (timers s)
       (completions s) (ended s)).

(** The effect of [SpacedRepetitionChessboard] monitoring
    [solved[initialIndex]]; it runs after every render, its
    dependencies including the completion handler. *)
Definition solvedEffect (s : Exposure) : Exposure :=
  let currentSolved := solvedHere s in
  let s1 :=
    if currentSolved && negb (previousSolvedState s) then
      if autoRevealTriggered s then
        mkExposure (time s) (attemptsHere s) (autoRevealTriggered s) (solvedHere s)
          (previousSolvedState s) true (timers s) (completions s) (ended s)
      else setTimeout CompleteSolved 2000 s
    else s in
  mkExposure (time s1) (attemptsHere s1) (autoRevealTriggered s1) (solvedHere s1)
    currentSolved (showAutoRevealMessage s1) (timers s1) (completions s1) (ended s1).

(** [setSolved] with [solved[currentIndex] = true]. *)
Definition setSolvedTrue (s : Exposure) : Exposure :=
  mkExposure (time s) (attemptsHere s) (autoRevealTriggered s) true
    (previousSolvedState s) (showAutoRevealMessage s) (timers s)
    (completions s) (ended s).

(** [handleIncorrectAttempt] *)
Definition handleIncorrectAttempt (s : Exposure) : Exposure :=
  let newAttempts := (attemptsHere s + 1)%nat in
  let s1 :=
    mkExposure (time s) newAttempts (autoRevealTriggered s) (solvedHere s)
      (previousSolvedState s) (showAutoRevealMessage s) (timers s)
      (completions s) (ended s) in
  if (MAX_ATTEMPTS <=? newAttempts)%nat && negb (autoRevealTriggered s) then
    setTimeout RevealSolution 1000
      (mkExposure (time s1) (attemptsHere s1) true (solvedHere s1)
         (previousSolvedState s1) (showAutoRevealMessage s1) (timers s1)
         (completions s1) (ended s1))
  else s1.

(** The body of a pending callback. *)
Definition runPending (latency : N) (cb : Pending) (s : Exposure) : Exposure :=
  match cb with
  | RevealSolution => setTimeout CompleteAutoRevealed 4000 (setSolvedTrue s)
  | CompleteAutoRevealed => handlePositionComplete latency false true s
  | CompleteSolved => handlePositionComplete latency true false s
  | RecordReturned wasAutoRevealed => afterRecord wasAutoRevealed s
  | Advance =>
      mkExposure (time s) (attemptsHere s) (autoRevealTriggered s) (solvedHere s)
        (previousSolvedState s) (showAutoRevealMessage s) (timers s)
        (completions s) true
  end.


(** The pending callback that is due first, registration order deciding
    between equal due times, and the callbacks left. *)
Fixpoint pop_earliest (l : list (Z * Pending))
    : option ((Z * Pending) * list (Z * Pending)) :=
  match l with
  | [] => None
  | x :: rest =>
      match pop_earliest rest with
      | None => Some (x, [])
      | Some (y, rest') =>
          if fst y <? fst x then Some (y, x :: rest') else Some (x, rest)
      end
  end.

(** Upper bound on the callbacks that one pending callback can cause to
    run, itself included. *)
Definition timer_rank (cb : Pending) : nat :=
  match cb with
  | Advance => 1
  | RecordReturned _ => 2
  | CompleteAutoRevealed | CompleteSolved => 3
  | RevealSolution => 4
  end.

Definition rank_sum (l : list (Z * Pending)) : nat :=
  list_sum (map (fun x => timer_rank (snd x)) l).

(** Upper bound on the callbacks that can still run: those pending with
    what they cause and, as long as the effect has not seen the position
    solved, the [CompleteSolved] chain that it may start. *)
Definition pending_budget (s : Exposure) : nat :=
  (rank_sum (timers s)
   + (if solvedHere s && previousSolvedState s then 0 else 3))%nat.

(** Runs, in the order they are due, the callbacks due at [target] or
    before, each followed by the render it causes. *)
Fixpoint run_due (latency : N) (fuel : nat) (target : Z) (s : Exposure) : Exposure :=
  match fuel with
  | O => s
  | S fuel' =>
      match pop_earliest (timers s) with
      | Some ((due, cb), rest) =>
          if due <=? target then
            run_due latency fuel' target
              (solvedEffect
                 (runPending latency cb
                    (mkExposure (Z.max (time s) due) (attemptsHere s)
                       (autoRevealTriggered s) (solvedHere s) (previousSolvedState s)
                       (showAutoRevealMessage s) rest (completions s) (ended s))))
          else s
      | None => s
      end
  end.

(** What happens to an exposure: a legal move that is not the best move
    is dropped on the board, the best move is dropped on the board, or
    time passes.  Clicks on the Skip, Mark-as-Correct and Continue
    buttons are not events of these traces; [clickContinue] below gives
    the last one. *)
Inductive Event : Type :=
| IncorrectMove
| CorrectMove
| Pass (ms : N).

(** A move is accepted while the position is in the active slot and the
    pieces can be dragged ([arePiecesDraggable={!solved[current]}]). *)
Definition step (latency : N) (e : Event) (s : Exposure) : Exposure :=
  match e with
  | IncorrectMove =>
      if ended s || solvedHere s then s
      else solvedEffect (handleIncorrectAttempt s)
  | CorrectMove =>
      if ended s || solvedHere s then s
      else solvedEffect (setSolvedTrue s)
  | Pass ms =>
      let target := time s + Z.of_N ms in
      let s' := run_due latency (pending_budget s) target s in
      mkExposure target (attemptsHere s') (autoRevealTriggered s') (solvedHere s')
        (previousSolvedState s') (showAutoRevealMessage s') (timers s')
        (completions s') (ended s')
  end.

(** The events of a trace, oldest first. *)
Definition run (latency : N) (trace : list Event) (s : Exposure) : Exposure :=
  fold_left (fun st e => step latency e st) trace s.

(** A click on the Continue button, which is rendered while
    [autoRevealTriggered] holds:
    [onClick={() => onPositionComplete(false, true)}]. *)
Definition clickContinue (latency : N) (s : Exposure) : Exposure :=
  if autoRevealTriggered s
  then solvedEffect (handlePositionComplete latency false true s)
  else s.

(** ** Queue counters of the header *)

(** The counting loop of [updateQueueInfo] over the rest of the corpus,
    which starts at index [i]; the pair is [(dueCount, newCount)], and
    [clock i] is the wall clock during iteration [i]. *)
Fixpoint updateQueueInfo_loop (problemStats : gmap string ProblemStat)
    (clock : nat -> Z) (i : nat) (rest : list Position) (counts : nat * nat)
    : nat * nat :=
  match rest with
  | [] => counts
  | position :: rest' =>
      let problemId := getProblemId position (Z.of_nat i) in
      let counts' :=
        match problemStats !! problemId with
        | None => (fst counts, S (snd counts))
        | Some problemStat =>
            let masteryLevel := calculateMasteryLevel problemStat in
            let daysSinceLastSeen :=
              calculateDaysSince (clock i) (last_attempt problemStat) in
            let intervalDays := intervalDaysOf masteryLevel in
            if JS.ge daysSinceLastSeen intervalDays || (masteryLevel =? 0)
            then (S (fst counts), snd counts)
            else counts
        end in
      updateQueueInfo_loop problemStats clock (S i) rest' counts'
  end.

(** [updateQueueInfo]: [stats] is [None] while no statistics are loaded,
    and the queue info then stays as it is; [positions] is the prop of
    the trainer, the unfiltered corpus. *)
Definition updateQueueInfo (stats : option (gmap string ProblemStat))
    (clock : nat -> Z) (positions : list Position) (current : QueueInfo) : QueueInfo :=
  match stats with
  | None => current
  | Some problemStats =>
      let counts := updateQueueInfo_loop problemStats clock 0 positions (0%nat, 0%nat) in
      mkQueueInfo (fst counts) (snd counts) (length positions)
  end.


(** ** Session statistics and advance of the trainer *)

Record SessionStats : Type := mkSessionStats {
  studied : nat;
  correct : nat;
  newProblemsSeen : nat;
  reviewProblemsSeen : nat;
  autoRevealed : nat
}.

Definition emptySessionStats : SessionStats := mkSessionStats 0 0 0 0 0.

(** The update passed to [setSessionStats] by [handlePositionComplete]. *)
Definition countCompletion (wasCorrect wasAutoRevealed : bool) (prev : SessionStats)
    : SessionStats :=
  mkSessionStats (studied prev + 1)
    (correct prev + (if wasCorrect then 1 else 0))
    (newProblemsSeen prev) (reviewProblemsSeen prev)
    (autoRevealed prev + (if wasAutoRevealed then 1 else 0)).

(** The place in the queue, the statistics of the session and the
    number of times the queue was reloaded. *)
Record Progress : Type := mkProgress {
  currentIndex : nat;
  sessionStats : SessionStats;
  reloads : nat
}.

(** [handlePositionComplete] seen from the queue of length [queueLength]:
    the completion is counted; then the delayed callback moves to the
    next position or, at the last one, reloads the queue, returns to
    index 0 and clears the statistics. *)
Definition completePosition (queueLength : nat) (wasCorrect wasAutoRevealed : bool)
    (p : Progress) : Progress :=
  let counted := countCompletion wasCorrect wasAutoRevealed (sessionStats p) in
  if Z.of_nat (currentIndex p) <? Z.of_nat queueLength - 1
  then mkProgress (currentIndex p + 1) counted (reloads p)
  else mkProgress 0 emptySessionStats (reloads p + 1).

(** ** The practice board *)

(** A square as the board names it: a file letter and a rank digit. *)
Record Square : Type := mkSquare {
  sq_file : ascii;
  sq_rank : ascii
}.

Definition square_name (sq : Square) : string :=
  String (sq_file sq) (String (sq_rank sq) EmptyString).

(** [userUci] of [onPieceDrop]: [sourceSquare + targetSquare]. *)
Definition userUci (sourceSquare targetSquare : Square) : string :=
  square_name sourceSquare +:+ square_name targetSquare.

(** [isCorrect] of [onPieceDrop]: [userUci === pos.best_move]. *)
Definition isCorrect (pos : Position) (sourceSquare targetSquare : Square) : bool :=
  String.eqb (userUci sourceSquare targetSquare) (best_move pos).

(** [next] and [prev] of [ChessboardTrainer], applied to [current]. *)
Module Nav.

Definition next (positionsLength : nat) (c : Z) : Z :=
  Z.min (Z.of_nat positionsLength - 1) (c + 1).

Definition prev (c : Z) : Z := Z.max 0 (c - 1).

End Nav.

(** An entry pushed on [currentSession.problems]. *)
Record ProblemLog : Type := mkProblemLog {
  log_problemId : string;
  log_attempts : nat;
  log_solved : bool;
  log_move : string;
  log_assistedSolve : bool
}.

(** The counters of the object made by [startSession]. *)
Record TrainingSession : Type := mkTrainingSession {
  problems : list ProblemLog;
  totalAttempts : nat;
  correctAnswers : nat;
  completedProblems : nat
}.

(** [startSession] *)
Definition startSession : TrainingSession := mkTrainingSession [] 0 0 0.

(** A JavaScript array with holes, a hole (read as [undefined]) being
    [None]; [js_set i v arr] is [copy = [...arr]; copy[i] = v], which
    extends the array when [i] is past its end. *)
Definition js_set {A : Type} (i : nat) (v : A) (arr : list (option A))
    : list (option A) :=
  if (i <? length arr)%nat then <[i := Some v]> arr
  else arr ++ replicate (i - length arr) None ++ [Some v].

(** The state of [ChessboardTrainer] that its counters live in: the
    local [attempts] array, the solved flags of the parent and the
    session, [None] until [initializeStats] has set it. *)
Record Board : Type := mkBoard {
  boardAttempts : list nat;
  boardSolved : list (option bool);
  currentSession : option TrainingSession
}.

(** The update of the session after a solved attempt (a correct drop or
    a played best move). *)
Definition sessionSolved (problemId : string) (attemptsNow : nat) (move : string)
    (assisted : bool) (session : TrainingSession) : TrainingSession :=
  mkTrainingSession
    (problems session ++ [mkProblemLog problemId attemptsNow true move assisted])
    (totalAttempts session + 1)
    (correctAnswers session + 1)
    (if (attemptsNow =? 1)%nat then completedProblems session + 1
     else completedProblems session).

(** The update of the session after a failed attempt. *)
Definition sessionFailed (problemId : string) (attemptsNow : nat) (move : string)
    (session : TrainingSession) : TrainingSession :=
  mkTrainingSession
    (problems session ++ [mkProblemLog problemId attemptsNow false move false])
    (totalAttempts session + 1)
    (correctAnswers session)
    (completedProblems session).

(** The bookkeeping of [onPieceDrop] for a legal move dropped on the
    position [pos] found at index [current] (an index of the [attempts]
    array): the attempt is counted, then the move is compared with the
    best move. *)
Definition onPieceDrop (pos : Position) (current : nat)
    (sourceSquare targetSquare : Square) (b : Board) : Board :=
  let newAttempts := alter S current (boardAttempts b) in
  let attemptsNow := default 0%nat (newAttempts !! current) in
  let problemId := getProblemId pos (Z.of_nat current) in
  if isCorrect pos sourceSquare targetSquare then
    mkBoard newAttempts (js_set current true (boardSolved b))
      (sessionSolved problemId attemptsNow (userUci sourceSquare targetSquare) false
         <$> currentSession b)
  else
    mkBoard newAttempts (boardSolved b)
      (sessionFailed problemId attemptsNow (userUci sourceSquare targetSquare)
         <$> currentSession b).

(** The bookkeeping of the Play-Best-Move button when the engine accepts
    the best move; the handler returns at once on an empty best move. *)
Definition playBestMove (pos : Position) (current : nat) (b : Board) : Board :=
  if String.eqb (best_move pos) EmptyString then b
  else
    let newAttempts := alter S current (boardAttempts b) in
    let attemptsNow := default 0%nat (newAttempts !! current) in
    let problemId := getProblemId pos (Z.of_nat current) in
    mkBoard newAttempts (js_set current true (boardSolved b))
      (sessionSolved problemId attemptsNow (best_move pos) true <$> currentSession b).

(** What is done at the practice board, on the position at [current]. *)
Inductive BoardEvent : Type :=
| Drop (current : nat) (sourceSquare targetSquare : Square)
| PlayBest (current : nat)
| SessionStarted.

(** One event on the board showing [positions]; an event on an index
    without position does not occur (the component renders no board). *)
Definition boardStep (positions : list Position) (e : BoardEvent) (b : Board) : Board :=
  match e with
  | Drop current src tgt =>
      match positions !! current with
      | Some pos => onPieceDrop pos current src tgt b
      | None => b
      end
  | PlayBest current =>
      match positions !! current with
      | Some pos => playBestMove pos current b
      | None => b
      end
  | SessionStarted =>
      mkBoard (boardAttempts b) (boardSolved b) (Some startSession)
  end.

(** The board when the component is mounted on [positions] with the
    solved flags of its parent. *)
Definition mountBoard (positions : list Position) (solvedFlags : list (option bool))
    : Board :=
  mkBoard (replicate (length positions) 0%nat) solvedFlags None.




(** * Properties *)

(** ** The rule of the specification, for comparison *)

(** The mastery rule in the words of the specification: 0 if [solved] is
    false, else [min(3, attempts)] if [firstTrySolved], else
    [min(2, floor(attempts / 2))]. *)
Definition spec_masteryLevel (r : ProblemStat) : Z :=
  if negb (solved r) then 0
  else if first_try_solved r then Z.min 3 (Z.of_N (attempts r))
  else Z.min 2 (Z.of_N (attempts r) / 2).

(** The table lookup in the words of the specification: a level outside
    the keys is clamped to the nearest key. *)
Definition spec_clampedInterval (level : Z) : Z :=
  or_default (REPETITION_INTERVALS !! Z.max 0 (Z.min 8 level)) 0.

(** ** Vocabulary of the statements *)

(** The classification of every position of [rest], which starts at
    index [i] of the corpus, in corpus order. *)
Fixpoint classified (problemStats : gmap string ProblemStat) (clock : nat -> Z)
    (i : nat) (rest : list Position) : list (Bucket * QueueItem) :=
  match rest with
  | [] => []
  | p :: rest' =>
      classify problemStats (clock i) i p :: classified problemStats clock (S i) rest'
  end.

(** The items classified into bucket [b], in corpus order. *)
Definition bucket_items (b : Bucket) (l : list (Bucket * QueueItem)) : list QueueItem :=
  map snd (filter (fun c => fst c = b) l).

(** [x] is the item that the classification loop builds, in bucket [b],
    for the position found at index [index x] of the corpus. *)
Definition item_of (problemStats : gmap string ProblemStat) (clock : nat -> Z)
    (positions : list Position) (b : Bucket) (x : QueueItem) : Prop :=
  positions !! index x = Some (position x) /\
  classify problemStats (clock (index x)) (index x) (position x) = (b, x).

(** The three arrays after the loop over the whole corpus. *)
Definition buckets_of (problemStats : gmap string ProblemStat) (clock : nat -> Z)
    (positions : list Position) : Buckets :=
  classify_loop problemStats clock 0 positions (mkBuckets [] [] []).

(** The array of [b] that receives the items of bucket [bkt]. *)
Definition bucket_list (bkt : Bucket) (b : Buckets) : list QueueItem :=
  match bkt with
  | New => newProblems b
  | Due => dueProblems b
  | NotDue => notDueProblems b
  end.

(** The pairs [(i, j)] swapped by the shuffle loop, in order. *)
Fixpoint shuffle_indices (random : nat -> Draw) (k : nat) (i : nat) : list (nat * nat) :=
  match i with
  | O => []
  | S i' => (i, random_index (random k) i) :: shuffle_indices random (S k) i'
  end.

(** A score that is a number above minus infinity. *)
Definition rankable (p : JS.num) : Prop :=
  match p with
  | JS.Fin _ | JS.PosInf => True
  | JS.NegInf | JS.NaN => False
  end.

(** [x] may stand before [y] in a list ordered by descending priority. *)
Definition desc (x y : QueueItem) : Prop := JS.ge (priority x) (priority y) = true.







(** Sample corpus and store used to exercise the statements. *)
Definition posX : Position := mkPosition 0 "fenX" "a2a3" "d2d4" (Some "Mistake").
Definition posA : Position := mkPosition 1 "fenA" "e2e4" "g1f3" (Some "Blunder").
Definition posB : Position := mkPosition 2 "fenB" "h7h6" "e7e5" (Some "Blunder").

Definition sampleCorpus : list Position := [posX; posA; posB].

(** [posA], at index 0 of the blunder-filtered corpus, was solved at the
    first try at time 0. *)
Definition sampleStore : gmap string ProblemStat :=
  {[ getProblemId posA 0 := mkProblemStat true 1 true (LaTime 0) ]}.

(** A two-position corpus whose second position has failed four times
    and carries a timestamp that does not parse. *)
Definition pairCorpus : list Position := [posA; posB].

Definition failedRecord : ProblemStat := mkProblemStat false 4 false LaInvalid.

Definition failedStore : gmap string ProblemStat :=
  {[ getProblemId posB 1 := failedRecord ]}.

Definition noon : nat -> Z := fun _ => 0.

Definition firstDraw : Draw := mkDraw 0 1 eq_refl.
Definition lowDraws : nat -> Draw := fun _ => firstDraw.

(** The label that a filter asks for, [None] for the filter that keeps
    everything. *)
Definition wanted_label (f : ErrorTypeFilter) : option string :=
  match f with
  | FilterAll => None
  | FilterBlunder => Some "blunder"%string
  | FilterMistake => Some "mistake"%string
  end.

(** The position passes the filter: its error type, in lower case, is
    the label asked for. *)
Definition selects (f : ErrorTypeFilter) (p : Position) : Prop :=
  match wanted_label f with
  | None => True
  | Some w => toLowerCase <$> error_type p = Some w
  end.



(** The string holds the separator of the problem ids. *)
Fixpoint has_underscore (s : string) : bool :=
  match s with
  | EmptyString => false
  | String c rest => Ascii.eqb c "_" || has_underscore rest
  end.

(** The board after a list of events, oldest first. *)
Definition boardRun (positions : list Position) (events : list BoardEvent) (b : Board)
    : Board :=
  fold_left (fun st e => boardStep positions e st) events b.

(** The number of positions tried at least once. *)
Definition tried (attemptsArray : list nat) : nat :=
  length (filter (fun a => (1 <= a)%nat) attemptsArray).

(** What the counters of a session keep true on a board with the given
    attempts array. *)
Definition session_consistent (attemptsArray : list nat) (s : TrainingSession) : Prop :=
  length (problems s) = totalAttempts s /\
  correctAnswers s = length (filter (fun l => log_solved l = true) (problems s)) /\
  (correctAnswers s <= totalAttempts s)%nat /\
  (completedProblems s <= correctAnswers s)%nat /\
  (completedProblems s <= tried attemptsArray)%nat /\
  (totalAttempts s <= list_sum attemptsArray)%nat /\
  Forall (fun l => (1 <= log_attempts l)%nat) (problems s).

(** A trainer progress after a list of completions, oldest first, in a
    queue of length [queueLength]. *)
Definition progressRun (queueLength : nat) (cs : list (bool * bool)) (p : Progress)
    : Progress :=
  fold_left (fun st c => completePosition queueLength (fst c) (snd c) st) cs p.



(** ** Arithmetic helpers *)

Lemma or_default_attempts_1 (n : N) :
  or_default (Some (Z.of_N n)) 1 = Z.max 1 (Z.of_N n).
Proof.
  unfold or_default. destruct (Z.eqb_spec (Z.of_N n) 0); lia.
Qed.

Lemma or_default_attempts_0 (n : N) :
  or_default (Some (Z.of_N n)) 0 = Z.of_N n.
Proof.
  unfold or_default. destruct (Z.eqb_spec (Z.of_N n) 0); lia.
Qed.

Lemma half_bounds (a : Z) : 1 <= a -> 0 <= a / 2 <= a.
Proof.
  intros Ha. split.
  - apply Z.div_pos; lia.
  - apply Z.div_le_upper_bound; lia.
Qed.

Lemma mastery_range (r : ProblemStat) : 0 <= calculateMasteryLevel r <= 3.
Proof.
  unfold calculateMasteryLevel.
  rewrite or_default_attempts_1.
  destruct (solved r); simpl; [| lia].
  destruct (first_try_solved r).
  - lia.
  - pose proof (half_bounds (Z.max 1 (Z.of_N (attempts r))) ltac:(lia)). lia.
Qed.

Lemma mastery_cases (r : ProblemStat) :
  calculateMasteryLevel r = 0 \/ calculateMasteryLevel r = 1 \/
  calculateMasteryLevel r = 2 \/ calculateMasteryLevel r = 3.
Proof. pose proof (mastery_range r). lia. Qed.

Lemma interval_outside (level : Z) :
  level < 0 \/ 8 < level -> REPETITION_INTERVALS !! level = None.
Proof.
  intros H. unfold REPETITION_INTERVALS. simpl.
  rewrite !lookup_insert_ne by lia. apply lookup_empty.
Qed.

Lemma interval_of_mastery (r : ProblemStat) :
  intervalDaysOf (calculateMasteryLevel r) = 0 \/
  intervalDaysOf (calculateMasteryLevel r) = 1 \/
  intervalDaysOf (calculateMasteryLevel r) = 3 \/
  intervalDaysOf (calculateMasteryLevel r) = 7.
Proof.
  destruct (mastery_cases r) as [H | [H | [H | H]]]; rewrite H; vm_compute; tauto.
Qed.

(** ** The embedding on sample inputs *)

Example mastery_samples :
  map calculateMasteryLevel
    [ mkProblemStat false 7 true LaFalsy;
      mkProblemStat true 1 true LaFalsy;
      mkProblemStat true 2 true LaFalsy;
      mkProblemStat true 9 true LaFalsy;
      mkProblemStat true 1 false LaFalsy;
      mkProblemStat true 3 false LaFalsy;
      mkProblemStat true 9 false LaFalsy ]
  = [0; 1; 2; 3; 0; 1; 2].
Proof. reflexivity. Qed.

Example days_samples :
  calculateDaysSince (3 * MS_PER_DAY) (LaTime 1) = JS.Fin 2 /\
  calculateDaysSince 0 (LaTime (3 * MS_PER_DAY)) = JS.Fin 3 /\
  calculateDaysSince 0 LaFalsy = JS.PosInf.
Proof. repeat split; reflexivity. Qed.

(** A stored timestamp that does not parse yields [NaN], which fails
    every comparison: a record above level 0 is then Not-Due. *)
Example unparseable_timestamp :
  calculateDaysSince 0 LaInvalid = JS.NaN /\
  fst (classify {[ getProblemId posA 0 := mkProblemStat true 1 true LaInvalid ]}
         0 0 posA) = NotDue /\
  fst (classify {[ getProblemId posA 0 := mkProblemStat false 1 false LaInvalid ]}
         0 0 posA) = Due.
Proof. vm_compute. repeat split; reflexivity. Qed.

Example priority_samples :
  calculatePriority (mkProblemStat false 4 false LaFalsy) JS.PosInf 0 = JS.PosInf /\
  calculatePriority (mkProblemStat false 4 false LaInvalid) JS.NaN 0 = JS.Fin 170 /\
  calculatePriority (mkProblemStat true 3 true (LaTime 0)) (JS.Fin 7) 7 = JS.Fin 55.
Proof. repeat split; reflexivity. Qed.

Example problem_id_samples :
  getProblemId posB 2 = "fenB_h7h6_2" /\
  indexOf sampleCorpus posB = 2 /\
  indexOf [posX; posA] posB = -1 /\
  getProblemId posB (indexOf [posX; posA] posB) = "fenB_h7h6_-1".
Proof. vm_compute. repeat split; reflexivity. Qed.

Example filter_samples :
  toLowerCase "Blunder" = "blunder" /\
  getFilteredPositions sampleCorpus FilterAll = [posX; posA; posB] /\
  getFilteredPositions sampleCorpus FilterBlunder = [posA; posB] /\
  getFilteredPositions sampleCorpus FilterMistake = [posX].
Proof. vm_compute. repeat split; reflexivity. Qed.

Example shuffle_sample :
  shuffleArray lowDraws [1; 2; 3] = [2; 3; 1] /\
  shuffleArray (fun _ => mkDraw 2 3 eq_refl) [1; 2; 3] = [1; 2; 3].
Proof. vm_compute. repeat split; reflexivity. Qed.

Example exposure_samples :
  completions (run 250 [CorrectMove; Pass 1999] (freshExposure 0)) = [] /\
  completions (run 250 [CorrectMove; Pass 2000] (freshExposure 0)) = [(true, false)] /\
  ended (run 250 [CorrectMove; Pass 3749] (freshExposure 0)) = false /\
  ended (run 250 [CorrectMove; Pass 3750] (freshExposure 0)) = true /\
  completions
    (run 250 [IncorrectMove; IncorrectMove; CorrectMove; Pass 9000] (freshExposure 0))
    = [(true, false)] /\
  completions
    (run 250 [IncorrectMove; IncorrectMove; IncorrectMove; Pass 500; CorrectMove;
              Pass 9000] (freshExposure 0))
    = [(false, true)] /\
  attemptsHere
    (run 250 [IncorrectMove; IncorrectMove; IncorrectMove; IncorrectMove; Pass 1000;
              IncorrectMove] (freshExposure 0))
    = 4%nat.
Proof. vm_compute. repeat split; reflexivity. Qed.

(** Outside the traces of moves and waiting: a click on Continue a
    tenth of a second after the third wrong move completes the exposure
    at once, resets the flag, and leaves the reveal timer running; when
    that timer marks the position solved the effect takes it for a
    normal solve, so that a second completion, as correct, is made
    before the queue advances. *)
Example continue_button_sample :
  let s3 := run 250 [IncorrectMove; IncorrectMove; IncorrectMove] (freshExposure 0) in
  let s4 := clickContinue 250 (step 250 (Pass 100) s3) in
  completions s4 = [(false, true)] /\
  completions (step 250 (Pass 2900) s4) = [(false, true); (true, false)] /\
  ended (step 250 (Pass 2900) s4) = false.
Proof. vm_compute. repeat split; reflexivity. Qed.

Example sort_sample :
  map priority
    (sort [ mkQueueItem posA 0 (JS.Fin 120) None None false;
            mkQueueItem posB 1 JS.PosInf None None false;
            mkQueueItem posX 2 (JS.Fin 155) None None false;
            mkQueueItem posX 3 JS.PosInf None None false ])
  = [JS.PosInf; JS.PosInf; JS.Fin 155; JS.Fin 120] /\
  map index
    (sort [ mkQueueItem posA 0 (JS.Fin 120) None None false;
            mkQueueItem posB 1 JS.PosInf None None false;
            mkQueueItem posX 2 (JS.Fin 155) None None false;
            mkQueueItem posX 3 JS.PosInf None None false ])
  = [1; 3; 2; 0]%nat.
Proof. vm_compute. repeat split; reflexivity. Qed.

(** ** Mastery evaluator and interval table *)

(** C2, as stated, fails: for a solved, first-try record whose attempt
    count is 0 (or missing) the evaluator reads the count as 1 and
    returns level 1, where the stated rule gives min(3, 0) = 0. *)
Lemma mastery_rule_zero_attempts_counterexample :
  calculateMasteryLevel (mkProblemStat true 0 true LaFalsy) = 1 /\
  spec_masteryLevel (mkProblemStat true 0 true LaFalsy) = 0 /\
  calculateMasteryLevel (mkProblemStat true 0 true LaFalsy)
    <> spec_masteryLevel (mkProblemStat true 0 true LaFalsy).
Proof. vm_compute. repeat split; congruence. Qed.

(** C2 (amended): for every performance record the evaluator returns 0
    if [solved] is false; otherwise, with a the attempt count read as 1
    when it is 0 or missing, min(3, a) if [first_try_solved] and
    min(2, floor(a / 2)) if not.  It departs from the stated rule only on
    solved first-try records with count 0, where it returns 1.  The
    evaluator is total on present records; an absent record is not
    evaluated: the classifier puts it in the New bucket with no mastery
    level attached. *)
Theorem mastery_level_rule :
  (forall r : ProblemStat,
      calculateMasteryLevel r =
        (if solved r then
           let a := Z.max 1 (Z.of_N (attempts r)) in
           if first_try_solved r then Z.min 3 a else Z.min 2 (a / 2)
         else 0) /\
      calculateMasteryLevel r =
        (if (attempts r =? 0)%N && solved r && first_try_solved r then 1
         else spec_masteryLevel r)) /\
  (forall (problemStats : gmap string ProblemStat) (now : Z) (i : nat) (pos : Position),
      problemStats !! getProblemId pos (Z.of_nat i) = None ->
      classify problemStats now i pos = (New, mkQueueItem pos i 0 None None true)).
Proof.
  split.
  - intros r. split.
    + unfold calculateMasteryLevel. rewrite or_default_attempts_1.
      destruct (solved r); reflexivity.
    + unfold calculateMasteryLevel, spec_masteryLevel, or_default.
      destruct (solved r); simpl; [| rewrite andb_false_r; reflexivity].
      rewrite andb_true_r.
      destruct (N.eqb_spec (attempts r) 0) as [E | E].
      * rewrite E. simpl. destruct (first_try_solved r); reflexivity.
      * simpl. destruct (Z.eqb_spec (Z.of_N (attempts r)) 0); [lia | reflexivity].
  - intros problemStats now i pos H. unfold classify. rewrite H. reflexivity.
Qed.

(** The absent-record part of [mastery_level_rule] on the sample store,
    which holds no record for [posA]. *)
Lemma mastery_level_rule_witness :
  failedStore !! getProblemId posA (Z.of_nat 0) = None /\
  classify failedStore 0 0 posA = (New, mkQueueItem posA 0 0 None None true).
Proof.
  split; [vm_compute; reflexivity |].
  apply (proj2 mastery_level_rule failedStore 0 0%nat posA).
  vm_compute. reflexivity.
Defined.

(** C9: whatever the fields of a record, its mastery level is an integer
    in [0,3]; the interval used for it is one of 0, 1, 3, 7 and so never
    exceeds 7 days; the levels 4 to 8, whose table entries are 14 to 365
    days, are never returned. *)
Theorem mastery_level_at_most_three :
  forall r : ProblemStat,
    0 <= calculateMasteryLevel r <= 3 /\
    0 <= intervalDaysOf (calculateMasteryLevel r) <= 7 /\
    ~ (4 <= calculateMasteryLevel r <= 8) /\
    Forall (fun level => 14 <= intervalDaysOf level <= 365 /\
                         calculateMasteryLevel r <> level) [4; 5; 6; 7; 8].
Proof.
  intros r. pose proof (mastery_range r) as Hm.
  pose proof (interval_of_mastery r) as Hi.
  repeat split; try lia.
  repeat constructor; try (vm_compute; congruence); lia.
Qed.

(** C7, as stated, fails: level 9 is above the last key, and the lookup
    yields the fallback 0, not the 365 days of key 8. *)
Lemma interval_no_clamp_counterexample :
  intervalDaysOf 9 = 0 /\ spec_clampedInterval 9 = 365 /\
  intervalDaysOf 9 <> spec_clampedInterval 9.
Proof. vm_compute. repeat split; congruence. Qed.

(** C7 (amended): the lookup does not clamp.  Every mastery level
    outside the keys 0 to 8 yields the fallback 0 (a level above 8 yields
    0, not 365); on the keys it yields the table entry. *)
Theorem interval_lookup_fallback :
  (forall level : Z, level < 0 \/ 8 < level -> intervalDaysOf level = 0) /\
  map intervalDaysOf [0; 1; 2; 3; 4; 5; 6; 7; 8] = [0; 1; 3; 7; 14; 30; 90; 180; 365].
Proof.
  split.
  - intros level H. unfold intervalDaysOf. rewrite (interval_outside level H).
    reflexivity.
  - vm_compute. reflexivity.
Qed.

(** [interval_lookup_fallback] at level 9. *)
Lemma interval_lookup_fallback_witness :
  (9 < 0 \/ 8 < 9) /\ intervalDaysOf 9 = 0.
Proof.
  split; [right; lia |].
  apply (proj1 interval_lookup_fallback 9). right. lia.
Defined.

(** ** Classification of one position *)

Lemma classify_absent (problemStats : gmap string ProblemStat) now i pos :
  problemStats !! getProblemId pos (Z.of_nat i) = None ->
  fst (classify problemStats now i pos) = New.
Proof. intros H. unfold classify. rewrite H. reflexivity. Qed.

Lemma classify_present (problemStats : gmap string ProblemStat) now i pos r :
  problemStats !! getProblemId pos (Z.of_nat i) = Some r ->
  classify problemStats now i pos =
    let m := calculateMasteryLevel r in
    let d := calculateDaysSince now (last_attempt r) in
    let iv := intervalDaysOf m in
    if JS.ge d iv || (m =? 0)
    then (Due, mkQueueItem pos i (calculatePriority r d iv) (Some m) (Some d) false)
    else (NotDue, mkQueueItem pos i (-1) (Some m) (Some d) false).
Proof. intros H. unfold classify. rewrite H. reflexivity. Qed.

Lemma classify_stored (problemStats : gmap string ProblemStat) now i pos r :
  classify (<[getProblemId pos (Z.of_nat i) := r]> problemStats) now i pos =
    let m := calculateMasteryLevel r in
    let d := calculateDaysSince now (last_attempt r) in
    let iv := intervalDaysOf m in
    if JS.ge d iv || (m =? 0)
    then (Due, mkQueueItem pos i (calculatePriority r d iv) (Some m) (Some d) false)
    else (NotDue, mkQueueItem pos i (-1) (Some m) (Some d) false).
Proof. apply classify_present. apply lookup_insert_eq. Qed.

Lemma days_since_time now ms :
  calculateDaysSince now (LaTime ms) = JS.Fin (Z.abs (now - ms) / MS_PER_DAY).
Proof.
  reflexivity.
Qed.

(** ** Days since the last attempt *)

(** C6, as stated, fails: read one second before the stored time, the
    clock gives 0 days, not infinity, and a first-try solved record
    (level 1, interval 1 day) with that future timestamp is Not-Due. *)
Lemma future_timestamp_counterexample :
  calculateDaysSince 0 (LaTime 1000) = JS.Fin 0 /\
  calculateDaysSince 0 (LaTime 1000) <> JS.PosInf /\
  fst (classify
         {[ getProblemId (mkPosition 0 "f" "e2e4" "d2d4" None) 0 :=
              mkProblemStat true 1 true (LaTime 1000) ]}
         0 0 (mkPosition 0 "f" "e2e4" "d2d4" None)) = NotDue.
Proof. vm_compute. repeat split; congruence. Qed.

(** C6 (amended): the computation never raises.  For a record without a
    last-attempt timestamp (null or empty) the days since the last
    attempt are infinite and the position is Due.  For a timestamp that
    parses, in the past or in the future, they are the whole days in the
    absolute difference to the clock, so a future timestamp does not
    force due-ness: the position is Due exactly when that number reaches
    the interval of its level or the level is 0. *)
Theorem days_since_missing_or_future :
  (forall now : Z, calculateDaysSince now LaFalsy = JS.PosInf) /\
  (forall now ms : Z,
      calculateDaysSince now (LaTime ms) = JS.Fin (Z.abs (now - ms) / MS_PER_DAY)) /\
  (forall (problemStats : gmap string ProblemStat) now i pos s a f,
      fst (classify (<[getProblemId pos (Z.of_nat i) := mkProblemStat s a f LaFalsy]>
                       problemStats) now i pos) = Due) /\
  (forall (problemStats : gmap string ProblemStat) now i pos s a f ms,
      let r := mkProblemStat s a f (LaTime ms) in
      fst (classify (<[getProblemId pos (Z.of_nat i) := r]> problemStats) now i pos) =
        if (intervalDaysOf (calculateMasteryLevel r) <=? Z.abs (now - ms) / MS_PER_DAY)
           || (calculateMasteryLevel r =? 0)
        then Due else NotDue).
Proof.
  split; [| split; [| split]].
  - reflexivity.
  - intros. apply days_since_time.
  - intros. rewrite classify_stored. reflexivity.
  - intros. subst r. rewrite classify_stored. cbv zeta.
    change (last_attempt (mkProblemStat s a f (LaTime ms))) with (LaTime ms).
    rewrite days_since_time. simpl JS.ge.
    match goal with |- context [if ?c then _ else _] => destruct c end; reflexivity.
Qed.

(** ** Priority *)

Lemma js_add_0_r (x : JS.num) : JS.add x 0 = x.
Proof. destruct x; simpl; try reflexivity. f_equal. lia. Qed.

Lemma gt_as_positive_difference (d : JS.num) (iv : Z) :
  JS.gt d iv = JS.gt (JS.sub d iv) 0.
Proof.
  destruct d as [n | | |]; simpl; try reflexivity.
  destruct (Z.ltb_spec iv n), (Z.ltb_spec 0 (n + - iv)); try reflexivity; lia.
Qed.

Lemma priority_finite (r : ProblemStat) (n iv : Z) :
  calculatePriority r (JS.Fin n) iv =
    JS.Fin (100 + Z.max 0 (n - iv) * 10 + (if solved r then 0 else 50)
            + Z.of_N (attempts r) * 5 - calculateMasteryLevel r * 20).
Proof.
  unfold calculatePriority. rewrite or_default_attempts_0. simpl JS.gt.
  destruct (Z.ltb_spec iv n); destruct (solved r); simpl; f_equal; lia.
Qed.

Lemma days_ten_ago (now : Z) :
  calculateDaysSince now (LaTime (now - 10 * MS_PER_DAY)) = JS.Fin 10.
Proof.
  rewrite days_since_time.
  replace (now - (now - 10 * MS_PER_DAY)) with (10 * MS_PER_DAY) by lia.
  reflexivity.
Qed.

(** C3: the priority of a Due item is 100, plus (daysSinceLastSeen -
    intervalDays) * 10 when that difference is positive and nothing
    otherwise, plus 50 when [solved] is false, plus attempts * 5, minus
    masteryLevel * 20, in the arithmetic of JavaScript numbers (for a
    finite number of days the integer formula); and the record
    {attempts: 5, firstTrySolved: false, solved: true, last attempt 10
    days ago} has level 2, interval 3 days, is Due and has priority
    155. *)
Theorem priority_score :
  (forall (r : ProblemStat) (d : JS.num) (iv : Z),
      calculatePriority r d iv =
        JS.sub
          (JS.add
             (JS.add
                (JS.add 100
                   (if JS.gt (JS.sub d iv) 0 then JS.mul (JS.sub d iv) 10 else 0))
                (if solved r then 0 else 50))
             (JS.mul (Z.of_N (attempts r)) 5))
          (JS.mul (calculateMasteryLevel r) 20)) /\
  (forall (r : ProblemStat) (n iv : Z),
      calculatePriority r (JS.Fin n) iv =
        JS.Fin (100 + Z.max 0 (n - iv) * 10 + (if solved r then 0 else 50)
                + Z.of_N (attempts r) * 5 - calculateMasteryLevel r * 20)) /\
  (forall (problemStats : gmap string ProblemStat) now i pos r,
      let c := classify (<[getProblemId pos (Z.of_nat i) := r]> problemStats) now i pos in
      priority (snd c) =
        match fst c with
        | Due =>
            calculatePriority r (calculateDaysSince now (last_attempt r))
              (intervalDaysOf (calculateMasteryLevel r))
        | _ => -1
        end) /\
  (forall (problemStats : gmap string ProblemStat) now i pos,
      let r := mkProblemStat true 5 false (LaTime (now - 10 * MS_PER_DAY)) in
      calculateMasteryLevel r = 2 /\
      intervalDaysOf (calculateMasteryLevel r) = 3 /\
      calculateDaysSince now (last_attempt r) = JS.Fin 10 /\
      classify (<[getProblemId pos (Z.of_nat i) := r]> problemStats) now i pos =
        (Due, mkQueueItem pos i 155 (Some 2) (Some (JS.Fin 10)) false)).
Proof.
  split; [| split; [| split]].
  - intros r d iv. unfold calculatePriority.
    rewrite or_default_attempts_0, <- gt_as_positive_difference.
    destruct (JS.gt d iv), (solved r); simpl negb; cbv iota;
      rewrite ?js_add_0_r; reflexivity.
  - apply priority_finite.
  - intros problemStats now i pos r c. subst c. rewrite classify_stored. cbv zeta.
    match goal with |- context [if ?c then _ else _] => destruct c end; reflexivity.
  - intros problemStats now i pos r.
    assert (Hd : calculateDaysSince now (last_attempt r) = JS.Fin 10)
      by apply days_ten_ago.
    split; [reflexivity |]. split; [reflexivity |]. split; [exact Hd |].
    rewrite classify_stored. cbv zeta. rewrite Hd. reflexivity.
Qed.

(** ** The classification loop *)

Lemma bucket_items_cons (b : Bucket) (c : Bucket * QueueItem) l :
  bucket_items b (c :: l) =
    if decide (fst c = b) then snd c :: bucket_items b l else bucket_items b l.
Proof.
  unfold bucket_items. rewrite filter_cons. destruct (decide (fst c = b)); reflexivity.
Qed.

Lemma classify_loop_buckets (problemStats : gmap string ProblemStat) clock rest :
  forall i acc,
    classify_loop problemStats clock i rest acc =
      mkBuckets
        (newProblems acc ++ bucket_items New (classified problemStats clock i rest))
        (dueProblems acc ++ bucket_items Due (classified problemStats clock i rest))
        (notDueProblems acc ++ bucket_items NotDue (classified problemStats clock i rest)).
Proof.
  induction rest as [| p rest IH]; intros i acc.
  - simpl. unfold bucket_items. simpl. rewrite !app_nil_r. destruct acc; reflexivity.
  - simpl. rewrite IH. rewrite !bucket_items_cons.
    unfold push.
    destruct (classify problemStats (clock i) i p) as [b x]. simpl.
    destruct b; simpl; rewrite <- ?app_assoc; reflexivity.
Qed.

Lemma buckets_of_items (problemStats : gmap string ProblemStat) clock positions :
  buckets_of problemStats clock positions =
    mkBuckets
      (bucket_items New (classified problemStats clock 0 positions))
      (bucket_items Due (classified problemStats clock 0 positions))
      (bucket_items NotDue (classified problemStats clock 0 positions)).
Proof. unfold buckets_of. rewrite classify_loop_buckets. reflexivity. Qed.

Lemma classify_item (problemStats : gmap string ProblemStat) now i pos :
  position (snd (classify problemStats now i pos)) = pos /\
  index (snd (classify problemStats now i pos)) = i /\
  isNew (snd (classify problemStats now i pos)) =
    bool_decide (fst (classify problemStats now i pos) = New).
Proof.
  unfold classify.
  destruct (problemStats !! getProblemId pos (Z.of_nat i)) as [r |]; simpl.
  - match goal with |- context [if ?c then _ else _] => destruct c end;
      simpl; repeat split; reflexivity.
  - repeat split; reflexivity.
Qed.

Lemma elem_of_classified (problemStats : gmap string ProblemStat) clock rest :
  forall i c,
    c ∈ classified problemStats clock i rest <->
    exists k pos, rest !! k = Some pos /\
                  c = classify problemStats (clock (i + k)%nat) (i + k)%nat pos.
Proof.
  induction rest as [| p rest IH]; intros i c; simpl.
  - split.
    + intros H. inversion H.
    + intros (k & pos & Hk & _). rewrite lookup_nil in Hk. discriminate.
  - rewrite elem_of_cons, IH. split.
    + intros [-> | (k & pos & Hk & ->)].
      * exists 0%nat, p. rewrite Nat.add_0_r. split; reflexivity.
      * exists (S k), pos. rewrite Nat.add_succ_r. split; [exact Hk | reflexivity].
    + intros (k & pos & Hk & ->). destruct k as [| k].
      * left. simpl in Hk. injection Hk as ->. rewrite Nat.add_0_r. reflexivity.
      * right. exists k, pos. rewrite Nat.add_succ_r. split; [exact Hk | reflexivity].
Qed.

Lemma elem_of_bucket_items (problemStats : gmap string ProblemStat) clock positions b x :
  x ∈ bucket_items b (classified problemStats clock 0 positions) <->
  item_of problemStats clock positions b x.
Proof.
  unfold bucket_items, item_of. rewrite list_elem_of_fmap. split.
  - intros ([b' x'] & -> & Hin). apply list_elem_of_filter in Hin as [Hb Hin].
    simpl in Hb. subst b'. apply elem_of_classified in Hin as (k & pos & Hk & Hc).
    simpl in Hc. pose proof (classify_item problemStats (clock k) k pos) as (Hp & Hi & _).
    rewrite <- Hc in Hp, Hi. simpl in Hp, Hi. simpl. subst pos k.
    split; [exact Hk | symmetry; exact Hc].
  - intros [Hk Hc]. exists (b, x). split; [reflexivity |].
    apply list_elem_of_filter. split; [reflexivity |].
    apply elem_of_classified. exists (index x), (position x).
    split; [exact Hk | symmetry; exact Hc].
Qed.

(** ** Ranking *)

Lemma sort_insert_perm (x : QueueItem) l : sort_insert x l ≡ₚ x :: l.
Proof.
  induction l as [| y l IH]; simpl.
  - reflexivity.
  - destruct (JS.gt (compareFn x y) 0).
    + rewrite IH. apply perm_swap.
    + reflexivity.
Qed.

Lemma sort_perm (l : list QueueItem) : sort l ≡ₚ l.
Proof.
  induction l as [| x l IH]; simpl.
  - reflexivity.
  - rewrite sort_insert_perm, IH. reflexivity.
Qed.

Lemma priority_rankable (r : ProblemStat) (d : JS.num) (iv : Z) :
  rankable (calculatePriority r d iv).
Proof.
  unfold calculatePriority. rewrite or_default_attempts_0.
  destruct d as [n | | |]; simpl JS.gt.
  - destruct (iv <? n), (solved r); simpl; exact I.
  - destruct (solved r); simpl; exact I.
  - destruct (solved r); simpl; exact I.
  - destruct (solved r); simpl; exact I.
Qed.

Lemma desc_trans (x y z : QueueItem) :
  rankable (priority y) -> desc x y -> desc y z -> desc x z.
Proof.
  unfold desc, rankable.
  destruct (priority x), (priority y), (priority z); simpl;
    try congruence; try tauto.
  intros _ H1 H2. apply Z.leb_le in H1, H2. apply Z.leb_le. lia.
Qed.

Lemma compare_positive_desc (x y : QueueItem) :
  JS.gt (compareFn x y) 0 = true -> desc y x.
Proof.
  unfold compareFn, desc.
  destruct (priority x), (priority y); simpl; try congruence.
  intros H. apply Z.ltb_lt in H. apply Z.leb_le. lia.
Qed.

Lemma compare_not_positive_desc (x y : QueueItem) :
  rankable (priority x) -> rankable (priority y) ->
  JS.gt (compareFn x y) 0 = false -> desc x y.
Proof.
  unfold compareFn, desc, rankable.
  destruct (priority x), (priority y); simpl; try congruence; try tauto.
  intros _ _ H. apply Z.ltb_ge in H. apply Z.leb_le. lia.
Qed.

Lemma sort_insert_sorted (x : QueueItem) l :
  rankable (priority x) ->
  Forall (fun y => rankable (priority y)) l ->
  StronglySorted desc l ->
  StronglySorted desc (sort_insert x l).
Proof.
  intros Hx Hl Hs. induction Hs as [| y l Hs IH Hy]; simpl.
  - repeat constructor.
  - inversion Hl as [| ? ? Hry Hrl]; subst.
    destruct (JS.gt (compareFn x y) 0) eqn:E.
    + constructor; [apply IH; exact Hrl |].
      rewrite sort_insert_perm. constructor; [| exact Hy].
      apply compare_positive_desc. exact E.
    + assert (Hxy : desc x y) by (apply compare_not_positive_desc; assumption).
      constructor; [constructor; assumption |].
      constructor; [exact Hxy |].
      eapply Forall_impl; [exact Hy |]. intros z Hz.
      apply (desc_trans x y z); assumption.
Qed.

Lemma sort_sorted (l : list QueueItem) :
  Forall (fun y => rankable (priority y)) l -> StronglySorted desc (sort l).
Proof.
  induction l as [| x l IH]; intros H; simpl.
  - constructor.
  - inversion H; subst. apply sort_insert_sorted; [assumption | | apply IH; assumption].
    rewrite sort_perm. assumption.
Qed.

(** ** Shuffle *)

Lemma random_index_le (r : Draw) (i : nat) : (random_index r i <= i)%nat.
Proof.
  unfold random_index. pose proof (in_unit r) as H. apply Nat.ltb_lt in H.
  apply Nat.lt_succ_r. apply Nat.Div0.div_lt_upper_bound. nia.
Qed.

Lemma insert_head_perm {A : Type} (l : list A) :
  forall (j : nat) (b x : A), l !! j = Some b -> b :: <[j:=x]> l ≡ₚ x :: l.
Proof.
  induction l as [| y l IH]; intros j b x H.
  - rewrite lookup_nil in H. discriminate.
  - destruct j as [| j]; simpl in *.
    + injection H as ->. apply perm_swap.
    + rewrite perm_swap. rewrite (IH j b x H). apply perm_swap.
Qed.

Lemma swap_perm {A : Type} (l : list A) : forall i j : nat, swap l i j ≡ₚ l.
Proof.
  unfold swap. induction l as [| y l IH]; intros i j.
  - rewrite !lookup_nil. reflexivity.
  - destruct i as [| i], j as [| j]; simpl.
    + reflexivity.
    + destruct (l !! j) as [b |] eqn:E; [| reflexivity].
      apply insert_head_perm. exact E.
    + destruct (l !! i) as [a |] eqn:E; [| reflexivity].
      apply insert_head_perm. exact E.
    + specialize (IH i j).
      destruct (l !! i), (l !! j); try reflexivity.
      simpl. rewrite IH. reflexivity.
Qed.

Lemma shuffle_loop_perm {A : Type} (random : nat -> Draw) (i : nat) :
  forall (k : nat) (l : list A), shuffle_loop random k i l ≡ₚ l.
Proof.
  induction i as [| i IH]; intros k l; simpl.
  - reflexivity.
  - rewrite IH. apply swap_perm.
Qed.

Lemma shuffleArray_perm {A : Type} (random : nat -> Draw) (l : list A) :
  shuffleArray random l ≡ₚ l.
Proof. apply shuffle_loop_perm. Qed.

Lemma swap_in_range {A : Type} (a : list A) (i j : nat) :
  (i < length a)%nat -> (j <= i)%nat ->
  length (swap a i j) = length a /\
  exists ai aj, a !! i = Some ai /\ a !! j = Some aj /\
                swap a i j = <[j:=ai]> (<[i:=aj]> a).
Proof.
  intros Hi Hj. unfold swap.
  destruct (lookup_lt_is_Some_2 a i Hi) as [ai Hai].
  destruct (lookup_lt_is_Some_2 a j ltac:(lia)) as [aj Haj].
  rewrite Hai, Haj. split.
  - rewrite !length_insert. reflexivity.
  - exists ai, aj. repeat split; assumption.
Qed.

Lemma swap_length {A : Type} (a : list A) (i j : nat) :
  length (swap a i j) = length a.
Proof.
  unfold swap. destruct (a !! i), (a !! j); try reflexivity.
  rewrite !length_insert. reflexivity.
Qed.

Lemma shuffle_loop_length {A : Type} (random : nat -> Draw) (i : nat) :
  forall (k : nat) (l : list A), length (shuffle_loop random k i l) = length l.
Proof.
  induction i as [| i IH]; intros k l; simpl; [reflexivity |].
  rewrite IH. apply swap_length.
Qed.

(** Every swap of the shuffle is between two places of the array, the
    second not after the first: [swap] never leaves its first branch. *)
Lemma shuffle_indices_in_range (random : nat -> Draw) (n i : nat) :
  forall k : nat,
    (i < n)%nat ->
    Forall (fun p => (snd p <= fst p)%nat /\ (fst p < n)%nat)
      (shuffle_indices random k i).
Proof.
  induction i as [| i IH]; intros k Hi; simpl; constructor.
  - simpl. split; [apply random_index_le | exact Hi].
  - apply IH. lia.
Qed.

(** ** The session queue *)

Lemma bucket_list_items (problemStats : gmap string ProblemStat) clock positions bkt x :
  x ∈ bucket_list bkt (buckets_of problemStats clock positions) <->
  item_of problemStats clock positions bkt x.
Proof.
  rewrite buckets_of_items, <- elem_of_bucket_items. destruct bkt; reflexivity.
Qed.

Lemma item_of_rankable (problemStats : gmap string ProblemStat) clock positions bkt x :
  item_of problemStats clock positions bkt x -> rankable (priority x).
Proof.
  intros [_ H]. unfold classify in H.
  destruct (problemStats !! _) as [r |].
  - match type of H with context [if ?c then _ else _] => destruct c end;
      injection H as _ <-; simpl; [apply priority_rankable | exact I].
  - injection H as _ <-. exact I.
Qed.

Lemma item_of_isNew (problemStats : gmap string ProblemStat) clock positions bkt x :
  item_of problemStats clock positions bkt x -> isNew x = bool_decide (bkt = New).
Proof.
  intros [_ H].
  pose proof (classify_item problemStats (clock (index x)) (index x) (position x))
    as (_ & _ & Hn).
  rewrite H in Hn. exact Hn.
Qed.

Lemma item_of_bucket_unique (problemStats : gmap string ProblemStat) clock positions b1 b2 x :
  item_of problemStats clock positions b1 x ->
  item_of problemStats clock positions b2 x -> b1 = b2.
Proof. intros [_ H1] [_ H2]. congruence. Qed.

Lemma allSelected_eq (problemStats : gmap string ProblemStat) clock positions :
  allSelected problemStats clock positions =
    take maxReviewProblems (sort (dueProblems (buckets_of problemStats clock positions)))
    ++ take maxNewProblems (newProblems (buckets_of problemStats clock positions)).
Proof. reflexivity. Qed.

Lemma shuffledQueue_perm (problemStats : gmap string ProblemStat) clock random positions :
  shuffledQueue problemStats clock random positions ≡ₚ
    take maxReviewProblems (sort (dueProblems (buckets_of problemStats clock positions)))
    ++ take maxNewProblems (newProblems (buckets_of problemStats clock positions)).
Proof. unfold shuffledQueue. rewrite shuffleArray_perm. reflexivity. Qed.

Lemma shuffledQueue_origin (problemStats : gmap string ProblemStat) clock random positions x :
  x ∈ shuffledQueue problemStats clock random positions ->
  item_of problemStats clock positions Due x \/
  item_of problemStats clock positions New x.
Proof.
  rewrite shuffledQueue_perm, elem_of_app. intros [H | H].
  - left. apply subseteq_take in H. rewrite sort_perm in H.
    apply (bucket_list_items _ _ _ Due). exact H.
  - right. apply subseteq_take in H.
    apply (bucket_list_items _ _ _ New). exact H.
Qed.

Lemma filter_none {A : Type} (P : A -> Prop) `{forall x, Decision (P x)} (l : list A) :
  Forall (fun x => ~ P x) l -> filter P l = [].
Proof.
  induction 1 as [| x l Hx _ IH]; [reflexivity |].
  rewrite filter_cons. destruct (decide (P x)); [contradiction | exact IH].
Qed.

Lemma due_bucket_rankable (problemStats : gmap string ProblemStat) clock positions :
  Forall (fun y => rankable (priority y))
    (dueProblems (buckets_of problemStats clock positions)).
Proof.
  apply Forall_forall. intros x Hx.
  apply (bucket_list_items _ _ _ Due) in Hx.
  eapply item_of_rankable; exact Hx.
Qed.

Lemma selected_due_not_new (problemStats : gmap string ProblemStat) clock positions n :
  Forall (fun x => isNew x = false)
    (take n (sort (dueProblems (buckets_of problemStats clock positions)))).
Proof.
  apply Forall_take. rewrite sort_perm. apply Forall_forall. intros x Hx.
  apply (bucket_list_items _ _ _ Due) in Hx.
  apply item_of_isNew in Hx. exact Hx.
Qed.

Lemma selected_new_is_new (problemStats : gmap string ProblemStat) clock positions n :
  Forall (fun x => isNew x = true)
    (take n (newProblems (buckets_of problemStats clock positions))).
Proof.
  apply Forall_take. apply Forall_forall. intros x Hx.
  apply (bucket_list_items _ _ _ New) in Hx.
  apply item_of_isNew in Hx. exact Hx.
Qed.

(** C4: for every corpus and snapshot of the performance store (and
    every clock and random source) the session queue is a rearrangement
    of the first 50 items at most of the Due bucket ranked by descending
    priority, together with the first 10 items at most of the New bucket
    in corpus order; it holds at most 10 new and at most 50 due items,
    hence at most 60 positions, and no Not-Due item. *)
Theorem session_queue_caps :
  forall (problemStats : gmap string ProblemStat) (clock : nat -> Z)
         (random : nat -> Draw) (positions : list Position),
    let b := buckets_of problemStats clock positions in
    let ranked := sort (dueProblems b) in
    let q := shuffledQueue problemStats clock random positions in
    fst (calculateSpacedRepetitionQueue problemStats clock random positions)
      = map position q /\
    q ≡ₚ take 50 ranked ++ take 10 (newProblems b) /\
    ranked ≡ₚ dueProblems b /\
    StronglySorted desc ranked /\
    (length (filter (fun x => isNew x = true) q) <= 10)%nat /\
    (length (filter (fun x => isNew x = false) q) <= 50)%nat /\
    (length (fst (calculateSpacedRepetitionQueue problemStats clock random positions))
       <= 60)%nat /\
    Forall (fun x => (x ∉ notDueProblems b) /\ (x ∈ newProblems b \/ x ∈ dueProblems b)) q.
Proof.
  intros problemStats clock random positions b ranked q.
  assert (Hq : q ≡ₚ take 50 ranked ++ take 10 (newProblems b))
    by apply shuffledQueue_perm.
  split; [reflexivity |]. split; [exact Hq |].
  split; [apply sort_perm |].
  split; [apply sort_sorted, due_bucket_rankable |].
  split; [| split; [| split]].
  - rewrite Hq, filter_app, length_app.
    rewrite (filter_none (fun x => isNew x = true) (take 50 ranked)).
    + simpl. etransitivity; [apply length_filter |]. rewrite length_take. lia.
    + eapply Forall_impl; [apply selected_due_not_new |].
      intros x Hx. simpl in Hx. congruence.
  - rewrite Hq, filter_app, length_app.
    rewrite (filter_none (fun x => isNew x = false) (take 10 (newProblems b))).
    + simpl. rewrite Nat.add_0_r.
      etransitivity; [apply length_filter |]. rewrite length_take. lia.
    + eapply Forall_impl; [apply selected_new_is_new |].
      intros x Hx. simpl in Hx. congruence.
  - change (fst (calculateSpacedRepetitionQueue problemStats clock random positions))
      with (map position q).
    rewrite length_map, Hq, length_app, !length_take. lia.
  - apply Forall_forall. intros x Hx.
    apply shuffledQueue_origin in Hx. split.
    + intros Hn. apply (bucket_list_items _ _ _ NotDue) in Hn.
      destruct Hx as [Hx | Hx];
        pose proof (item_of_bucket_unique _ _ _ _ _ _ Hx Hn); discriminate.
    + destruct Hx as [Hx | Hx].
      * right. apply (bucket_list_items _ _ _ Due). exact Hx.
      * left. apply (bucket_list_items _ _ _ New). exact Hx.
Qed.

(** ** Due-ness classification *)

Lemma classified_in_bucket (problemStats : gmap string ProblemStat) clock positions i pos :
  positions !! i = Some pos ->
  snd (classify problemStats (clock i) i pos) ∈
    bucket_list (fst (classify problemStats (clock i) i pos))
      (buckets_of problemStats clock positions).
Proof.
  intros H. apply bucket_list_items.
  pose proof (classify_item problemStats (clock i) i pos) as (Hp & Hi & _).
  unfold item_of. rewrite Hp, Hi. split; [exact H |].
  destruct (classify problemStats (clock i) i pos); reflexivity.
Qed.

Lemma unsolved_is_level_zero (r : ProblemStat) :
  solved r = false -> calculateMasteryLevel r = 0.
Proof. intros H. unfold calculateMasteryLevel. rewrite H. reflexivity. Qed.

(** C1: every position of the active corpus lands in the bucket the rule
    names.  Without a record under its problem id it is New; with a
    record it is Due exactly when daysSinceLastSeen >= intervalDays (the
    table entry of its mastery level) or the level is 0, and Not-Due
    otherwise; no Not-Due item reaches the session queue; and a record
    with [solved] false makes its position Due whatever its
    [last_attempt] is. *)
Theorem classification_rule :
  forall (problemStats : gmap string ProblemStat) (clock : nat -> Z)
         (positions : list Position),
    let b := buckets_of problemStats clock positions in
    (forall (i : nat) (pos : Position),
        positions !! i = Some pos ->
        let c := classify problemStats (clock i) i pos in
        snd c ∈ bucket_list (fst c) b /\
        fst c =
          match problemStats !! getProblemId pos (Z.of_nat i) with
          | None => New
          | Some r =>
              let m := calculateMasteryLevel r in
              let d := calculateDaysSince (clock i) (last_attempt r) in
              if JS.ge d (intervalDaysOf m) || (m =? 0) then Due else NotDue
          end) /\
    (forall (random : nat -> Draw) (x : QueueItem),
        x ∈ shuffledQueue problemStats clock random positions ->
        x ∉ notDueProblems b) /\
    (forall (i : nat) (pos : Position) (r : ProblemStat),
        positions !! i = Some pos ->
        problemStats !! getProblemId pos (Z.of_nat i) = Some r ->
        solved r = false ->
        fst (classify problemStats (clock i) i pos) = Due /\
        snd (classify problemStats (clock i) i pos) ∈ dueProblems b).
Proof.
  intros problemStats clock positions b. split; [| split].
  - intros i pos Hi c. split; [apply classified_in_bucket; exact Hi |].
    subst c. unfold classify.
    destruct (problemStats !! getProblemId pos (Z.of_nat i)) as [r |];
      [| reflexivity].
    cbv zeta. match goal with |- context [if ?c then _ else _] => destruct c end;
      reflexivity.
  - intros random x Hx Hn. apply shuffledQueue_origin in Hx.
    apply (bucket_list_items _ _ _ NotDue) in Hn.
    destruct Hx as [Hx | Hx];
      pose proof (item_of_bucket_unique _ _ _ _ _ _ Hx Hn); discriminate.
  - intros i pos r Hi Hr Hs.
    assert (Hd : fst (classify problemStats (clock i) i pos) = Due).
    { rewrite (classify_present _ _ _ _ _ Hr). cbv zeta.
      rewrite (unsolved_is_level_zero r Hs). rewrite orb_true_r. reflexivity. }
    split; [exact Hd |].
    pose proof (classified_in_bucket problemStats clock positions i pos Hi) as Hin.
    rewrite Hd in Hin. exact Hin.
Qed.

(** [classification_rule] on the two-position corpus: [posA] has no
    record and is New and queued, [posB] has a failed record and is
    Due. *)
Lemma classification_rule_witness :
  fst (classify failedStore (noon 0) 0 posA) = New /\
  (snd (classify failedStore (noon 0) 0 posA)
     ∉ notDueProblems (buckets_of failedStore noon pairCorpus)) /\
  fst (classify failedStore (noon 1) 1 posB) = Due.
Proof.
  pose proof (classification_rule failedStore noon pairCorpus) as (H1 & H2 & H3).
  split; [| split].
  - rewrite (proj2 (H1 0%nat posA eq_refl)). vm_compute. reflexivity.
  - apply (H2 lowDraws). vm_compute. apply list_elem_of_here.
  - apply (H3 1%nat posB failedRecord eq_refl); vm_compute; reflexivity.
Defined.

(** ** Session without backend *)

(** C8: when the backend is not available the session is still set up:
    it presents the first 20 positions at most of the filtered corpus,
    in corpus order, neither ranked nor shuffled, and without consulting
    any performance record, so that no Due, New or Not-Due distinction
    is made. *)
Theorem offline_session_first_twenty :
  forall (positions : list Position) (errorTypeFilter : ErrorTypeFilter)
         (clock : nat -> Z) (random : nat -> Draw),
    let filtered := getFilteredPositions positions errorTypeFilter in
    let s := initializeSpacedRepetition positions errorTypeFilter Offline clock random in
    currentPositions s = take 20 filtered /\
    currentPositions s `prefix_of` filtered /\
    length (currentPositions s) = Nat.min 20 (length filtered) /\
    (length (currentPositions s) <= 20)%nat /\
    (forall i : nat,
        currentPositions s !! i = if (i <? 20)%nat then filtered !! i else None) /\
    solvedArr s = replicate (length (currentPositions s)) false /\
    attemptsArr s = replicate (length (currentPositions s)) 0%nat /\
    isBackendAvailable s = false /\
    queueInfo s = None.
Proof.
  intros positions errorTypeFilter clock random filtered s.
  assert (Hlen : length (currentPositions s) = Nat.min 20 (length filtered))
    by apply length_take.
  split; [reflexivity |]. split; [apply prefix_take |].
  split; [exact Hlen |]. split; [lia |].
  split.
  - intros i. change (currentPositions s) with (take 20 filtered).
    destruct (Nat.ltb_spec i 20).
    + apply lookup_take_lt. assumption.
    + apply lookup_take_ge. assumption.
  - rewrite Hlen. repeat split; reflexivity.
Qed.

(** ** Problem identifiers of the three code paths *)

(** C10 fails on the code.  With the blunder filter the corpus
    [posX; posA; posB] is filtered to [posA; posB]; [posA] is Not-Due, so
    the queue is [posB].  Classification looked [posB] up under index 1
    (its place in the filtered corpus), the completed exposure is
    recorded under index 2 (its place in the full corpus) and each raw
    attempt under index 0 (its place in the queue): three different
    identifiers for one position. *)
Theorem problem_ids_disagree :
  let session :=
    initializeSpacedRepetition sampleCorpus FilterBlunder (Online sampleStore)
      noon lowDraws in
  getFilteredPositions sampleCorpus FilterBlunder = [posA; posB] /\
  currentPositions session = [posB] /\
  map index (shuffledQueue sampleStore noon lowDraws [posA; posB]) = [1%nat] /\
  getProblemId posB (Z.of_nat 1) = "fenB_h7h6_1" /\
  completionProblemId sampleCorpus (currentPositions session) 0 = Some "fenB_h7h6_2" /\
  attemptProblemId (currentPositions session) 0 = Some "fenB_h7h6_0".
Proof. vm_compute. repeat split; reflexivity. Qed.

(** ** Auto-reveal *)











(** ** The loop over pending callbacks runs to completion *)

Lemma pop_earliest_none (l : list (Z * Pending)) : pop_earliest l = None -> l = [].
Proof.
  destruct l as [| x l]; [reflexivity |]. simpl.
  destruct (pop_earliest l) as [[y rest'] |]; [| discriminate].
  destruct (fst y <? fst x); discriminate.
Qed.

Lemma pop_earliest_some (l : list (Z * Pending)) :
  forall y rest,
    pop_earliest l = Some (y, rest) ->
    rank_sum l = (timer_rank (snd y) + rank_sum rest)%nat /\
    Forall (fun x => fst y <= fst x) l.
Proof.
  induction l as [| x l IH]; intros y rest H; [discriminate |].
  simpl in H. destruct (pop_earliest l) as [[y' rest'] |] eqn:E.
  - destruct (IH y' rest' eq_refl) as [Hr Hf].
    destruct (Z.ltb_spec (fst y') (fst x)); injection H as <- <-.
    + split.
      * unfold rank_sum in *. simpl. lia.
      * constructor; [lia | exact Hf].
    + split; [reflexivity |].
      constructor; [lia |].
      eapply Forall_impl; [exact Hf |]. simpl. intros; lia.
  - injection H as <- <-. apply pop_earliest_none in E. subst l.
    split; [reflexivity |]. constructor; [lia | constructor].
Qed.

Lemma timer_rank_pos (cb : Pending) : (1 <= timer_rank cb)%nat.
Proof. destruct cb; simpl; lia. Qed.

Lemma rank_sum_zero (l : list (Z * Pending)) : rank_sum l = 0%nat -> l = [].
Proof.
  destruct l as [| x l]; [reflexivity |]. unfold rank_sum. simpl.
  pose proof (timer_rank_pos (snd x)). lia.
Qed.

Lemma runPending_budget (latency : N) (cb : Pending) (s : Exposure) :
  (pending_budget (solvedEffect (runPending latency cb s)) + 1
   <= pending_budget s + timer_rank cb)%nat.
Proof.
  destruct s as [t a trig sol prev msg tm comp en].
  unfold pending_budget.
  destruct cb; simpl; unfold solvedEffect; simpl;
    destruct sol, prev, trig; simpl;
    unfold rank_sum; rewrite ?map_app, ?list_sum_app; simpl; lia.
Qed.

(** The fuel handed to [run_due] by [step] is enough: when the loop
    stops, every callback still pending is due after [target]. *)
Lemma run_due_complete (latency : N) (target : Z) (fuel : nat) :
  forall s : Exposure,
    (pending_budget s <= fuel)%nat ->
    Forall (fun x => target < fst x) (timers (run_due latency fuel target s)).
Proof.
  induction fuel as [| fuel IH]; intros s Hf; simpl.
  - rewrite (rank_sum_zero (timers s)) by (unfold pending_budget in Hf; lia).
    constructor.
  - destruct (pop_earliest (timers s)) as [[[due cb] rest] |] eqn:E.
    + destruct (pop_earliest_some _ _ _ E) as [Hr Hmin]. simpl in Hr, Hmin.
      destruct (Z.leb_spec due target).
      * apply IH.
        match goal with |- context [runPending latency cb ?s'] =>
          pose proof (runPending_budget latency cb s') as Hk;
          remember (solvedEffect (runPending latency cb s')) as s''
        end.
        unfold pending_budget in Hf. unfold pending_budget at 2 in Hk.
        simpl in Hk. lia.
      * eapply Forall_impl; [exact Hmin |]. simpl. intros; lia.
    + apply pop_earliest_none in E. rewrite E. constructor.
Qed.

Lemma pass_runs_all_due (latency ms : N) (s : Exposure) :
  Forall (fun x => time (step latency (Pass ms) s) < fst x)
    (timers (step latency (Pass ms) s)).
Proof. simpl. apply run_due_complete. lia. Qed.

(** * Further properties of the code *)

(** ** Corpus filter *)

Lemma filter_keeps_iff (w : string) (p : Position) :
  match error_type p with
  | Some e => String.eqb (toLowerCase e) w
  | None => false
  end = true <-> toLowerCase <$> error_type p = Some w.
Proof.
  destruct (error_type p) as [e |]; simpl.
  - rewrite String.eqb_eq. split; [intros ->; reflexivity | congruence].
  - split; discriminate.
Qed.

Lemma list_filter_sublist {A : Type} (f : A -> bool) (l : list A) :
  List.filter f l `sublist_of` l.
Proof.
  induction l as [| x l IH]; simpl; [constructor |].
  destruct (f x); [apply sublist_skip | apply sublist_cons]; exact IH.
Qed.

Lemma list_filter_idem {A : Type} (f : A -> bool) (l : list A) :
  List.filter f (List.filter f l) = List.filter f l.
Proof.
  induction l as [| x l IH]; simpl; [reflexivity |].
  destruct (f x) eqn:E; simpl; rewrite ?E, IH; reflexivity.
Qed.

Lemma getFilteredPositions_sublist (positions : list Position) (f : ErrorTypeFilter) :
  getFilteredPositions positions f `sublist_of` positions.
Proof. destruct f; simpl; [reflexivity | |]; apply list_filter_sublist. Qed.

Lemma elem_of_getFilteredPositions (positions : list Position) (f : ErrorTypeFilter)
    (p : Position) :
  p ∈ getFilteredPositions positions f <-> p ∈ positions /\ selects f p.
Proof.
  destruct f; unfold selects; simpl.
  - tauto.
  - rewrite list_elem_of_In, filter_In, filter_keeps_iff, <- list_elem_of_In.
    reflexivity.
  - rewrite list_elem_of_In, filter_In, filter_keeps_iff, <- list_elem_of_In.
    reflexivity.
Qed.

(** X1: [getFilteredPositions] keeps the corpus order and drops
    nothing that is asked for: its result is a sublist of the corpus; a
    position is in it exactly when it is in the corpus and its error
    type, in lower case, is the label of the filter; filtering twice
    is filtering once; the filter for all error types returns the
    corpus itself; no position passes both the blunder and the mistake
    filter. *)
Theorem filtered_corpus_exact :
  forall (positions : list Position) (f : ErrorTypeFilter),
    getFilteredPositions positions f `sublist_of` positions /\
    (forall p : Position,
        p ∈ getFilteredPositions positions f <-> p ∈ positions /\ selects f p) /\
    getFilteredPositions (getFilteredPositions positions f) f
      = getFilteredPositions positions f /\
    getFilteredPositions positions FilterAll = positions /\
    getFilteredPositions (getFilteredPositions positions FilterBlunder) FilterMistake = [].
Proof.
  intros positions f. split; [| split; [| split; [| split]]].
  - apply getFilteredPositions_sublist.
  - intros p. apply elem_of_getFilteredPositions.
  - destruct f; simpl; [reflexivity | |]; apply list_filter_idem.
  - reflexivity.
  - simpl. induction positions as [| p l IH]; simpl; [reflexivity |].
    destruct (error_type p) as [e |] eqn:E; simpl; [| exact IH].
    destruct (String.eqb_spec (toLowerCase e) "blunder") as [Hb | Hb]; [| exact IH].
    simpl. rewrite E, Hb. simpl. exact IH.
Qed.

(** ** Queue counters *)

Lemma bucket_items_lengths (l : list (Bucket * QueueItem)) :
  (length (bucket_items New l) + length (bucket_items Due l)
   + length (bucket_items NotDue l) = length l)%nat.
Proof.
  induction l as [| [b x] l IH]; [reflexivity |].
  rewrite !bucket_items_cons. simpl.
  destruct b; repeat case_decide; try congruence; simpl; lia.
Qed.

Lemma classified_length (problemStats : gmap string ProblemStat) clock rest :
  forall i, length (classified problemStats clock i rest) = length rest.
Proof.
  induction rest as [| p rest IH]; intros i; simpl; [reflexivity |].
  rewrite IH. reflexivity.
Qed.

Lemma queue_length (problemStats : gmap string ProblemStat) clock random positions :
  length (shuffledQueue problemStats clock random positions) =
    (Nat.min 50 (length (dueProblems (buckets_of problemStats clock positions)))
     + Nat.min 10 (length (newProblems (buckets_of problemStats clock positions))))%nat.
Proof.
  rewrite shuffledQueue_perm, length_app, !length_take, sort_perm. reflexivity.
Qed.

Lemma queue_empty_iff (problemStats : gmap string ProblemStat) clock random positions :
  fst (calculateSpacedRepetitionQueue problemStats clock random positions) = [] <->
  length (dueProblems (buckets_of problemStats clock positions)) = 0%nat /\
  length (newProblems (buckets_of problemStats clock positions)) = 0%nat.
Proof.
  pose proof (queue_length problemStats clock random positions) as Hlen.
  assert (Hq : length (fst (calculateSpacedRepetitionQueue problemStats clock random
                              positions))
               = length (shuffledQueue problemStats clock random positions)).
  { simpl. apply length_map. }
  split.
  - intros H. rewrite H in Hq. cbn [length] in Hq. lia.
  - intros [H1 H2]. apply length_zero_iff_nil. lia.
Qed.

(** X2: the counters returned with the queue: [due] and [new] are the
    sizes of the due and the new bucket before any cap, [total] is the
    number of positions given; every position lies in exactly one of
    the three buckets; the queue holds min(50, due) + min(10, new)
    positions, and it is empty exactly when both counters are 0. *)
Theorem queue_info_counts :
  forall (problemStats : gmap string ProblemStat) (clock : nat -> Z)
         (random : nat -> Draw) (positions : list Position),
    let b := buckets_of problemStats clock positions in
    let r := calculateSpacedRepetitionQueue problemStats clock random positions in
    qi_due (snd r) = length (dueProblems b) /\
    qi_new (snd r) = length (newProblems b) /\
    qi_total (snd r) = length positions /\
    (qi_due (snd r) + qi_new (snd r) + length (notDueProblems b)
     = length positions)%nat /\
    length (fst r) = (Nat.min 50 (qi_due (snd r)) + Nat.min 10 (qi_new (snd r)))%nat /\
    (fst r = [] <-> qi_due (snd r) = 0%nat /\ qi_new (snd r) = 0%nat).
Proof.
  intros problemStats clock random positions b r.
  assert (Hlen : length (fst r) =
                 (Nat.min 50 (length (dueProblems b))
                  + Nat.min 10 (length (newProblems b)))%nat).
  { subst r. simpl. rewrite length_map. apply queue_length. }
  split; [reflexivity |]. split; [reflexivity |]. split; [reflexivity |].
  split; [| split].
  - change (length (dueProblems b) + length (newProblems b)
            + length (notDueProblems b) = length positions)%nat.
    subst b. rewrite buckets_of_items. simpl.
    pose proof (bucket_items_lengths (classified problemStats clock 0 positions)) as H.
    rewrite classified_length in H. lia.
  - exact Hlen.
  - apply queue_empty_iff.
Qed.

Lemma updateQueueInfo_loop_counts (problemStats : gmap string ProblemStat) clock rest :
  forall i counts,
    updateQueueInfo_loop problemStats clock i rest counts =
      ((fst counts + length (bucket_items Due (classified problemStats clock i rest)))%nat,
       (snd counts + length (bucket_items New (classified problemStats clock i rest)))%nat).
Proof.
  induction rest as [| p rest IH]; intros i [d n]; simpl.
  - unfold bucket_items. simpl. f_equal; lia.
  - rewrite IH, !bucket_items_cons. unfold classify.
    destruct (problemStats !! getProblemId p (Z.of_nat i)) as [r |]; simpl.
    + match goal with |- context [if ?c then _ else _] => destruct c end;
        simpl; repeat case_decide; try congruence; simpl; f_equal; lia.
    + repeat case_decide; try congruence; simpl; f_equal; lia.
Qed.

(** X3: [updateQueueInfo], once statistics are loaded, counts what
    [calculateSpacedRepetitionQueue] counts on the same positions,
    whatever the shuffle; without statistics it leaves the counters as
    they are; and its total, taken over the unfiltered corpus, is
    never below the total that the queue builder reports for a
    filtered corpus. *)
Theorem header_counts_agree :
  forall (problemStats : gmap string ProblemStat) (clock : nat -> Z)
         (random : nat -> Draw) (positions : list Position) (current : QueueInfo),
    updateQueueInfo (Some problemStats) clock positions current
      = snd (calculateSpacedRepetitionQueue problemStats clock random positions) /\
    updateQueueInfo None clock positions current = current /\
    (forall f : ErrorTypeFilter,
        (qi_total (snd (calculateSpacedRepetitionQueue problemStats clock random
                          (getFilteredPositions positions f)))
         <= qi_total (updateQueueInfo (Some problemStats) clock positions current))%nat).
Proof.
  intros problemStats clock random positions current. split; [| split].
  - unfold updateQueueInfo. rewrite updateQueueInfo_loop_counts. simpl.
    fold (buckets_of problemStats clock positions). rewrite buckets_of_items.
    reflexivity.
  - reflexivity.
  - intros f. simpl. apply sublist_length.
    destruct f; simpl; [reflexivity | |]; apply list_filter_sublist.
Qed.

(** X4: the queue is empty, and the trainer shows that nothing is left
    to review, exactly when every position has a stored record and is
    classified as not due. *)
Theorem caught_up_exactly_when_nothing_due :
  forall (problemStats : gmap string ProblemStat) (clock : nat -> Z)
         (random : nat -> Draw) (positions : list Position),
    fst (calculateSpacedRepetitionQueue problemStats clock random positions) = [] <->
    (forall (i : nat) (pos : Position),
        positions !! i = Some pos ->
        fst (classify problemStats (clock i) i pos) = NotDue).
Proof.
  intros problemStats clock random positions.
  rewrite queue_empty_iff. split.
  - intros [H1 H2] i pos Hi.
    pose proof (classified_in_bucket problemStats clock positions i pos Hi) as Hin.
    destruct (fst (classify problemStats (clock i) i pos)); simpl in Hin;
      [| | reflexivity].
    + apply length_zero_iff_nil in H2. rewrite H2 in Hin. inversion Hin.
    + apply length_zero_iff_nil in H1. rewrite H1 in Hin. inversion Hin.
  - intros H. split; apply length_zero_iff_nil.
    + destruct (dueProblems (buckets_of problemStats clock positions)) as [| x l] eqn:E;
        [reflexivity |].
      assert (Hx : x ∈ bucket_list Due (buckets_of problemStats clock positions))
        by (simpl; rewrite E; left).
      apply bucket_list_items in Hx. destruct Hx as [Hk Hc].
      specialize (H _ _ Hk). rewrite Hc in H. discriminate.
    + destruct (newProblems (buckets_of problemStats clock positions)) as [| x l] eqn:E;
        [reflexivity |].
      assert (Hx : x ∈ bucket_list New (buckets_of problemStats clock positions))
        by (simpl; rewrite E; left).
      apply bucket_list_items in Hx. destruct Hx as [Hk Hc].
      specialize (H _ _ Hk). rewrite Hc in H. discriminate.
Qed.

(** ** Shuffle *)

(** X5: [shuffleArray] rearranges: its result is a permutation of its
    argument, of the same length; every swap it makes is between an
    index [i] of the array and an index [j <= i]; the empty and the
    one-element array come back unchanged. *)
Theorem shuffle_rearranges :
  forall (A : Type) (random : nat -> Draw) (array : list A),
    shuffleArray random array ≡ₚ array /\
    length (shuffleArray random array) = length array /\
    Forall (fun p => (snd p <= fst p)%nat /\ (fst p < length array)%nat)
      (shuffle_indices random 0 (length array - 1)) /\
    shuffleArray random (@nil A) = [] /\
    (forall x : A, shuffleArray random [x] = [x]).
Proof.
  intros A random array. split; [apply shuffleArray_perm |].
  split; [apply shuffle_loop_length |]. split; [| split; reflexivity].
  destruct array as [| x l]; [constructor |].
  apply shuffle_indices_in_range. simpl. lia.
Qed.

(** ** Mastery levels *)

Ltac div_facts :=
  repeat match goal with
         | |- context [?a / 2] =>
             let q := fresh "q" in
             let Hq := fresh "Hq" in
             pose proof (Z.div_mod a 2 ltac:(lia)) as Hq;
             pose proof (Z.mod_pos_bound a 2 ltac:(lia));
             remember (a / 2) as q
         end.

Lemma mastery_formula (s f : bool) (a : N) (la : LastAttempt) :
  calculateMasteryLevel (mkProblemStat s a f la) =
    if s then
      if f then Z.min 3 (Z.max 1 (Z.of_N a))
      else Z.min 2 (Z.max 1 (Z.of_N a) / 2)
    else 0.
Proof.
  unfold calculateMasteryLevel. cbn [solved attempts first_try_solved].
  rewrite or_default_attempts_1. destruct s; reflexivity.
Qed.

(** X6: the mastery levels by the record: the level is 0 exactly when
    the problem is unsolved, or solved after a failed first try with
    at most one attempt counted; it is 3 exactly when the problem is
    solved at the first try with at least three attempts counted; more
    attempts never lower it; and a record solved at the first try is
    never below the same record not solved at the first try. *)
Theorem mastery_levels_characterised :
  forall (s f : bool) (a : N) (la : LastAttempt),
    let level := calculateMasteryLevel (mkProblemStat s a f la) in
    (level = 0 <-> s = false \/ (f = false /\ (a <= 1)%N)) /\
    (level = 3 <-> s = true /\ f = true /\ (3 <= a)%N) /\
    (forall k : N,
        level <= calculateMasteryLevel (mkProblemStat s (a + k) f la)) /\
    calculateMasteryLevel (mkProblemStat s a false la)
      <= calculateMasteryLevel (mkProblemStat s a true la).
Proof.
  intros s f a la level. subst level. rewrite !mastery_formula.
  assert (Hhalf : forall x : Z, x / 2 = 0 <-> 0 <= x < 2 \/ False).
  { intros x. split.
    - intros H. left. pose proof (Z.div_mod x 2 ltac:(lia)).
      pose proof (Z.mod_pos_bound x 2 ltac:(lia)). lia.
    - intros [H | []]. apply Z.div_small. exact H. }
  assert (Hpos : forall x : Z, 1 <= x -> 0 <= x / 2).
  { intros x Hx. apply Z.div_pos; lia. }
  split; [| split; [| split]].
  - destruct s, f.
    + split; [lia | intros [H | [H _]]; discriminate].
    + pose proof (Hhalf (Z.max 1 (Z.of_N a))) as Hh.
      pose proof (Hpos (Z.max 1 (Z.of_N a)) ltac:(lia)) as Hp.
      split.
      * intros H. right. split; [reflexivity |].
        assert (Z.max 1 (Z.of_N a) / 2 = 0) by lia. lia.
      * intros [H | [_ H]]; [discriminate |].
        assert (Z.max 1 (Z.of_N a) / 2 = 0) by (apply Hh; lia). lia.
    + split; [intros _; left; reflexivity | reflexivity].
    + split; [intros _; left; reflexivity | reflexivity].
  - destruct s, f.
    + split; [intros H; repeat split; lia | intros (_ & _ & H); lia].
    + pose proof (Hpos (Z.max 1 (Z.of_N a)) ltac:(lia)) as Hp.
      split; [lia | intros (_ & H & _); discriminate].
    + split; [discriminate | intros (H & _); discriminate].
    + split; [discriminate | intros (H & _); discriminate].
  - intros k. rewrite mastery_formula. destruct s, f; try lia.
    apply Z.min_le_compat_l. apply Z.div_le_mono; lia.
  - destruct s; [| lia].
    pose proof (Z.div_le_upper_bound (Z.max 1 (Z.of_N a)) 2 (Z.max 1 (Z.of_N a))
                  ltac:(lia) ltac:(lia)).
    lia.
Qed.

(** ** Priority *)

Lemma priority_nonfinite (r : ProblemStat) (iv : Z) :
  calculatePriority r JS.PosInf iv = JS.PosInf /\
  calculatePriority r JS.NaN iv = calculatePriority r (JS.Fin iv) iv /\
  calculatePriority r JS.NegInf iv = calculatePriority r (JS.Fin iv) iv.
Proof.
  unfold calculatePriority. rewrite or_default_attempts_0. simpl JS.gt.
  rewrite Z.ltb_irrefl.
  destruct (solved r); simpl; repeat split; reflexivity.
Qed.

Lemma score_floor (s f : bool) (a : N) (la : LastAttempt) :
  Z.of_N a * 5 - calculateMasteryLevel (mkProblemStat s a f la) * 20 >= -45.
Proof.
  rewrite mastery_formula. destruct s, f; lia.
Qed.

(** X7: the priority score is at least 55 whatever the record, the
    days and the interval, and 55 is reached (solved at the first try,
    three attempts, seen exactly one interval ago); an unsolved record
    outranks a solved one with the same attempts by at least 50; with
    a finite number of days the score never drops as the days grow. *)
Theorem priority_floor :
  (forall (r : ProblemStat) (d : JS.num) (iv : Z),
      JS.ge (calculatePriority r d iv) 55 = true) /\
  (forall (la : LastAttempt) (iv : Z),
      calculatePriority (mkProblemStat true 3 true la) (JS.Fin iv) iv = JS.Fin 55) /\
  (forall (a : N) (f f' : bool) (la la' : LastAttempt) (d : JS.num) (iv : Z),
      JS.ge (calculatePriority (mkProblemStat false a f la) d iv)
            (JS.add (calculatePriority (mkProblemStat true a f' la') d iv) 50) = true) /\
  (forall (r : ProblemStat) (n : Z) (k : N) (iv : Z),
      JS.ge (calculatePriority r (JS.Fin (n + Z.of_N k)) iv)
            (calculatePriority r (JS.Fin n) iv) = true).
Proof.
  assert (Hfin : forall (r : ProblemStat) (n iv : Z),
             exists p, calculatePriority r (JS.Fin n) iv = JS.Fin p /\ 55 <= p).
  { intros [s a f la] n iv. rewrite priority_finite. eexists. split; [reflexivity |].
    pose proof (score_floor s f a la). cbn [solved attempts].
    destruct s; lia. }
  split; [| split; [| split]].
  - intros r d iv. destruct (priority_nonfinite r iv) as (Hi & Hn & Hm).
    destruct d as [n | | |]; rewrite ?Hi, ?Hn, ?Hm; [| reflexivity | |];
      destruct (Hfin r ltac:(first [exact n | exact iv]) iv) as (p & -> & Hp);
      simpl; apply Z.leb_le; exact Hp.
  - intros la iv. rewrite priority_finite. cbn [solved attempts].
    rewrite mastery_formula. f_equal. lia.
  - intros a f f' la la' d iv.
    destruct (priority_nonfinite (mkProblemStat false a f la) iv) as (Hi & Hn & Hm).
    destruct (priority_nonfinite (mkProblemStat true a f' la') iv) as (Hi' & Hn' & Hm').
    assert (Hcmp : forall n : Z,
               JS.ge (calculatePriority (mkProblemStat false a f la) (JS.Fin n) iv)
                 (JS.add (calculatePriority (mkProblemStat true a f' la') (JS.Fin n) iv) 50)
               = true).
    { intros n. rewrite !priority_finite. cbn [solved attempts]. simpl.
      apply Z.leb_le. rewrite !mastery_formula.
      pose proof (mastery_range (mkProblemStat true a f' la')) as Hr.
      rewrite mastery_formula in Hr. lia. }
    destruct d as [n | | |]; rewrite ?Hi, ?Hi', ?Hn, ?Hn', ?Hm, ?Hm';
      [apply Hcmp | reflexivity | apply Hcmp | apply Hcmp].
  - intros r n k iv. rewrite !priority_finite. simpl. apply Z.leb_le. lia.
Qed.

(** ** Due-ness over time *)

Lemma stored_bucket (problemStats : gmap string ProblemStat) now i pos s a f ms :
  let r := mkProblemStat s a f (LaTime ms) in
  fst (classify (<[getProblemId pos (Z.of_nat i) := r]> problemStats) now i pos) =
    if (intervalDaysOf (calculateMasteryLevel r) <=? Z.abs (now - ms) / MS_PER_DAY)
       || (calculateMasteryLevel r =? 0)
    then Due else NotDue.
Proof.
  intros r. subst r. rewrite classify_stored. cbv zeta.
  change (last_attempt (mkProblemStat s a f (LaTime ms))) with (LaTime ms).
  rewrite days_since_time. simpl JS.ge.
  match goal with |- context [if ?c then _ else _] => destruct c end; reflexivity.
Qed.

(** X8: once a stored position whose last attempt lies in the past is
    due, it stays due at every later time. The timestamp has to lie in
    the past: a record stamped two days ahead is due now and not due
    two days later. *)
Theorem due_stays_due :
  (forall (problemStats : gmap string ProblemStat) (i : nat) (pos : Position)
          (s f : bool) (a : N) (ts : Z) (elapsed later : N),
      let store :=
        <[getProblemId pos (Z.of_nat i) := mkProblemStat s a f (LaTime ts)]>
          problemStats in
      fst (classify store (ts + Z.of_N elapsed) i pos) = Due ->
      fst (classify store (ts + Z.of_N elapsed + Z.of_N later) i pos) = Due) /\
  (let store : gmap string ProblemStat :=
     {[ getProblemId posA 0 := mkProblemStat true 1 true (LaTime (2 * MS_PER_DAY)) ]} in
   fst (classify store 0 0 posA) = Due /\
   fst (classify store (2 * MS_PER_DAY) 0 posA) = NotDue).
Proof.
  split.
  - intros problemStats i pos s f a ts elapsed later store. subst store.
    rewrite !stored_bucket.
    set (iv := intervalDaysOf (calculateMasteryLevel (mkProblemStat s a f (LaTime ts)))).
    destruct (calculateMasteryLevel (mkProblemStat s a f (LaTime ts)) =? 0);
      [rewrite !orb_true_r; reflexivity |].
    rewrite !orb_false_r.
    destruct (Z.leb_spec iv (Z.abs (ts + Z.of_N elapsed - ts) / MS_PER_DAY));
      [| discriminate].
    intros _.
    destruct (Z.leb_spec iv
                (Z.abs (ts + Z.of_N elapsed + Z.of_N later - ts) / MS_PER_DAY));
      [reflexivity |].
    exfalso.
    assert (Z.abs (ts + Z.of_N elapsed - ts) / MS_PER_DAY
            <= Z.abs (ts + Z.of_N elapsed + Z.of_N later - ts) / MS_PER_DAY).
    { apply Z.div_le_mono; [reflexivity | lia]. }
    lia.
  - vm_compute. split; reflexivity.
Qed.

Lemma due_stays_due_witness :
  fst (classify (<[getProblemId posA (Z.of_nat 0) :=
                     mkProblemStat true 1 true (LaTime 0)]> ∅)
         (0 + Z.of_N 86400000 + Z.of_N 5) 0 posA) = Due.
Proof.
  apply (proj1 due_stays_due ∅ 0%nat posA true true 1%N 0 86400000%N 5%N).
  vm_compute. reflexivity.
Defined.

(** ** Wrong moves in a row *)




(** ** A solved exposure *)







(** ** What a session presents *)

Lemma classified_positions (problemStats : gmap string ProblemStat) clock rest :
  forall i, map position (map snd (classified problemStats clock i rest)) = rest.
Proof.
  induction rest as [| p rest IH]; intros i; simpl; [reflexivity |].
  rewrite IH. destruct (classify_item problemStats (clock i) i p) as (-> & _).
  reflexivity.
Qed.

Lemma due_new_submseteq (l : list (Bucket * QueueItem)) :
  bucket_items Due l ++ bucket_items New l ⊆+ map snd l.
Proof.
  induction l as [| [b x] l IH]; [reflexivity |].
  rewrite !bucket_items_cons. simpl.
  destruct b; repeat case_decide; try congruence; simpl.
  - rewrite <- Permutation_middle. apply submseteq_skip. exact IH.
  - apply submseteq_skip. exact IH.
  - apply submseteq_cons. exact IH.
Qed.

Lemma queue_positions_submseteq (problemStats : gmap string ProblemStat) clock random ps :
  fst (calculateSpacedRepetitionQueue problemStats clock random ps) ⊆+ ps.
Proof.
  simpl. rewrite shuffledQueue_perm.
  rewrite <- (classified_positions problemStats clock ps 0) at 3.
  apply (fmap_submseteq position).
  etransitivity; [| apply due_new_submseteq].
  rewrite buckets_of_items. simpl.
  apply submseteq_app.
  - etransitivity; [apply submseteq_take |]. rewrite sort_perm. reflexivity.
  - apply submseteq_take.
Qed.

(** X11: whatever the backend answers, the positions of a session
    come from the filtered corpus, each at most as often as it occurs
    there, so each passes the filter; the solved flags and the attempt
    counters are reset to the length of the session; and a session
    never holds more than 60 positions. *)
Theorem session_positions_from_filtered_corpus :
  forall (positions : list Position) (f : ErrorTypeFilter) (backend : Backend)
         (clock : nat -> Z) (random : nat -> Draw),
    let s := initializeSpacedRepetition positions f backend clock random in
    currentPositions s ⊆+ getFilteredPositions positions f /\
    currentPositions s ⊆+ positions /\
    Forall (selects f) (currentPositions s) /\
    solvedArr s = replicate (length (currentPositions s)) false /\
    attemptsArr s = replicate (length (currentPositions s)) 0%nat /\
    (length (currentPositions s) <= 60)%nat.
Proof.
  intros positions f backend clock random s.
  pose proof (getFilteredPositions_sublist positions f) as Hsub.
  pose proof (elem_of_getFilteredPositions positions f) as Hin.
  assert (H1 : currentPositions s ⊆+ getFilteredPositions positions f).
  { subst s. destruct backend as [| problemStats]; simpl.
    - apply submseteq_take.
    - apply (queue_positions_submseteq problemStats clock random). }
  split; [exact H1 |]. split; [| split].
  - etransitivity; [exact H1 |]. apply sublist_submseteq. exact Hsub.
  - apply Forall_forall. intros p Hp.
    assert (Hp' : p ∈ getFilteredPositions positions f).
    { eapply elem_of_submseteq; [exact Hp | exact H1]. }
    apply Hin in Hp'. tauto.
  - subst s. destruct backend as [| problemStats]; simpl.
    + rewrite length_take. repeat split; try reflexivity. lia.
    + repeat split; try reflexivity.
      rewrite length_map, queue_length. lia.
Qed.

(** ** What the caps leave out *)

Lemma bucket_indices_sorted (problemStats : gmap string ProblemStat) clock b rest :
  forall i,
    StronglySorted lt (map index (bucket_items b (classified problemStats clock i rest))) /\
    Forall (fun k => (i <= k)%nat)
      (map index (bucket_items b (classified problemStats clock i rest))).
Proof.
  induction rest as [| p rest IH]; intros i; simpl.
  - split; constructor.
  - rewrite bucket_items_cons. destruct (IH (S i)) as [Hs Hf].
    destruct (classify_item problemStats (clock i) i p) as (_ & Hi & _).
    case_decide; simpl.
    + rewrite Hi. split.
      * constructor; [exact Hs |].
        eapply Forall_impl; [exact Hf |]. simpl. intros; lia.
      * constructor; [lia |].
        eapply Forall_impl; [exact Hf |]. simpl. intros; lia.
    + split; [exact Hs |].
      eapply Forall_impl; [exact Hf |]. simpl. intros; lia.
Qed.

Lemma sorted_cut {A : Type} (R : A -> A -> Prop) (l : list A) (n : nat) :
  StronglySorted R l ->
  Forall (fun x => Forall (R x) (drop n l)) (take n l).
Proof.
  intros H. rewrite <- (take_drop n l) in H.
  apply Forall_forall. intros x Hx. apply Forall_forall. intros y Hy.
  eapply StronglySorted_app_1_elem_of; eassumption.
Qed.

(** X12: what the caps leave out: both buckets are filled in
    increasing corpus order; the due positions kept by the cap of 50
    each have a priority at least that of every due position left
    out; the new positions kept by the cap of 10 each come earlier in
    the corpus than every new position left out. *)
Theorem caps_keep_the_front :
  forall (problemStats : gmap string ProblemStat) (clock : nat -> Z)
         (positions : list Position),
    let b := buckets_of problemStats clock positions in
    let ranked := sort (dueProblems b) in
    StronglySorted lt (map index (newProblems b)) /\
    StronglySorted lt (map index (dueProblems b)) /\
    allSelected problemStats clock positions = take 50 ranked ++ take 10 (newProblems b) /\
    Forall (fun x => Forall (fun y => desc x y) (drop 50 ranked)) (take 50 ranked) /\
    Forall (fun x => Forall (fun y => (index x < index y)%nat) (drop 10 (newProblems b)))
      (take 10 (newProblems b)).
Proof.
  intros problemStats clock positions b ranked.
  assert (Hn : StronglySorted lt (map index (newProblems b))).
  { subst b. rewrite buckets_of_items. apply bucket_indices_sorted. }
  assert (Hd : StronglySorted lt (map index (dueProblems b))).
  { subst b. rewrite buckets_of_items. apply bucket_indices_sorted. }
  split; [exact Hn |]. split; [exact Hd |]. split; [reflexivity |]. split.
  - apply sorted_cut. apply sort_sorted. apply due_bucket_rankable.
  - pose proof (sorted_cut lt (map index (newProblems b)) 10 Hn) as H.
    rewrite <- fmap_take, <- fmap_drop in H.
    rewrite Forall_fmap in H. eapply Forall_impl; [exact H |].
    intros x Hx. simpl in Hx. rewrite Forall_fmap in Hx. exact Hx.
Qed.

(** ** Moves dropped on the board *)

Lemma userUci_length (src tgt : Square) : String.length (userUci src tgt) = 4%nat.
Proof. reflexivity. Qed.

(** X13: a drop on the board is correct exactly when the best move is
    the four letters of the source and the target square; so a best
    move that is not four letters long, such as a promotion written
    with its piece letter, is never matched by any drop. *)
Theorem drop_matches_four_letter_moves_only :
  (forall (pos : Position) (src tgt : Square),
      isCorrect pos src tgt = true <-> best_move pos = userUci src tgt) /\
  (forall src tgt : Square, String.length (userUci src tgt) = 4%nat) /\
  (forall (pos : Position) (src tgt : Square),
      String.length (best_move pos) <> 4%nat -> isCorrect pos src tgt = false).
Proof.
  split; [| split].
  - intros pos src tgt. unfold isCorrect. rewrite String.eqb_eq.
    split; intros H; symmetry; exact H.
  - apply userUci_length.
  - intros pos src tgt H. unfold isCorrect.
    destruct (String.eqb_spec (userUci src tgt) (best_move pos)) as [E |];
      [| reflexivity].
    rewrite <- E, userUci_length in H. contradiction.
Qed.

Lemma drop_matches_four_letter_moves_only_witness :
  isCorrect (mkPosition 0 "f" "a2a3" "e7e8q" None)
    (mkSquare "e" "7") (mkSquare "e" "8") = false.
Proof.
  apply (proj2 (proj2 drop_matches_four_letter_moves_only)). simpl. lia.
Defined.

(** ** Problem identifiers *)

Lemma to_int_not_nil (z : Z) :
  Z.to_int z <> Decimal.Pos Decimal.Nil /\ Z.to_int z <> Decimal.Neg Decimal.Nil.
Proof.
  split; intros H; pose proof (DecimalZ.of_to z) as Hz; rewrite H in Hz;
    simpl in Hz; subst z; discriminate.
Qed.

Lemma string_of_Z_inj (i j : Z) : string_of_Z i = string_of_Z j -> i = j.
Proof.
  unfold string_of_Z. intros H.
  apply DecimalZ.to_int_inj.
  destruct (to_int_not_nil i) as [Hi1 Hi2], (to_int_not_nil j) as [Hj1 Hj2].
  pose proof (NilZero.isi _ Hi1 Hi2) as Ei.
  pose proof (NilZero.isi _ Hj1 Hj2) as Ej.
  rewrite H in Ei. congruence.
Qed.

Lemma uint_string_no_underscore (d : Decimal.uint) :
  has_underscore (NilEmpty.string_of_uint d) = false.
Proof. induction d; simpl; try reflexivity; exact IHd. Qed.

Lemma string_of_Z_no_underscore (z : Z) : has_underscore (string_of_Z z) = false.
Proof.
  unfold string_of_Z, NilZero.string_of_int, NilZero.string_of_uint.
  destruct (Z.to_int z) as [d | d]; destruct d; simpl; try reflexivity;
    apply uint_string_no_underscore.
Qed.

Lemma append_nil_l (s : string) : EmptyString +:+ s = s.
Proof. reflexivity. Qed.

Lemma append_cons (c : ascii) (a s : string) : String c a +:+ s = String c (a +:+ s).
Proof. reflexivity. Qed.

Lemma has_underscore_app (a b : string) :
  has_underscore (a +:+ b) = has_underscore a || has_underscore b.
Proof.
  induction a as [| c a IH]; [reflexivity |].
  rewrite append_cons. simpl. rewrite IH, orb_assoc. reflexivity.
Qed.

Lemma has_underscore_separator (c d : string) :
  has_underscore (c +:+ String "_" d) = true.
Proof.
  rewrite has_underscore_app. simpl. apply orb_true_r.
Qed.

Ltac norm_append H :=
  repeat first [rewrite append_nil_l in H | rewrite append_cons in H].

Lemma split_at_last_underscore (a c b d : string) :
  has_underscore b = false -> has_underscore d = false ->
  a +:+ "_" +:+ b = c +:+ "_" +:+ d -> a = c /\ b = d.
Proof.
  intros Hb Hd. revert c. induction a as [| x a IH]; intros c H.
  - destruct c as [| y c]; norm_append H.
    + injection H as ->. split; reflexivity.
    + injection H as <- ->. rewrite has_underscore_separator in Hb. discriminate.
  - destruct c as [| y c]; norm_append H.
    + injection H as -> <-. rewrite has_underscore_separator in Hd. discriminate.
    + injection H as -> H. destruct (IH c H) as [-> ->]. split; reflexivity.
Qed.

Lemma append_assoc3 (a b c : string) : a +:+ b +:+ c = (a +:+ b) +:+ c.
Proof.
  induction a as [| x a IH]; [reflexivity |].
  rewrite !append_cons, IH. reflexivity.
Qed.

(** X14: problem identifiers: when the moves of two positions hold no
    underscore, equal identifiers mean equal FEN, equal move and equal
    index; for one position the identifier determines the index; with
    an underscore in a move two different positions can share an
    identifier. *)
Theorem problem_id_determines_its_parts :
  (forall (p q : Position) (i j : Z),
      has_underscore (player_move p) = false ->
      has_underscore (player_move q) = false ->
      getProblemId p i = getProblemId q j ->
      fen p = fen q /\ player_move p = player_move q /\ i = j) /\
  (forall (p : Position) (i j : Z), getProblemId p i = getProblemId p j -> i = j) /\
  getProblemId (mkPosition 0 "a_b" "c" "x" None) 0
    = getProblemId (mkPosition 1 "a" "b_c" "x" None) 0.
Proof.
  split; [| split].
  - intros p q i j Hp Hq H. unfold getProblemId in H.
    rewrite (append_assoc3 (fen p)), (append_assoc3 (fen q)) in H.
    rewrite (append_assoc3 (fen p +:+ "_")), (append_assoc3 (fen q +:+ "_")) in H.
    apply split_at_last_underscore in H as [H1 H2];
      try apply string_of_Z_no_underscore.
    rewrite <- !append_assoc3 in H1.
    apply split_at_last_underscore in H1 as [H3 H4]; try assumption.
    repeat split; try assumption. apply string_of_Z_inj. exact H2.
  - intros p i j H. unfold getProblemId in H.
    repeat apply String.app_inj in H. apply string_of_Z_inj. exact H.
  - reflexivity.
Qed.

Lemma problem_id_determines_its_parts_witness :
  fen posA = fen posA /\ player_move posA = player_move posA /\ 4 = 4.
Proof.
  apply (proj1 problem_id_determines_its_parts posA posA 4 4); reflexivity.
Defined.

(** ** Navigation on the practice board *)

(** X17: the Next and Previous buttons never leave the positions:
    from an index of the list both give an index of the list; Next
    only stops at the last position and Previous at the first; and
    each undoes the other away from those two ends. *)
Theorem navigation_stays_on_positions :
  forall (positionsLength : nat) (c : Z),
    0 <= c < Z.of_nat positionsLength ->
    0 <= Nav.next positionsLength c < Z.of_nat positionsLength /\
    0 <= Nav.prev c < Z.of_nat positionsLength /\
    Nav.next positionsLength c
      = (if c =? Z.of_nat positionsLength - 1 then c else c + 1) /\
    Nav.prev c = (if c =? 0 then c else c - 1) /\
    Nav.prev (Nav.next positionsLength c)
      = (if c =? Z.of_nat positionsLength - 1 then Nav.prev c else c) /\
    Nav.next positionsLength (Nav.prev c)
      = (if c =? 0 then Nav.next positionsLength c else c).
Proof.
  intros n c H. unfold Nav.next, Nav.prev.
  destruct (Z.eqb_spec c (Z.of_nat n - 1)), (Z.eqb_spec c 0); repeat split; lia.
Qed.

Lemma navigation_stays_on_positions_witness :
  0 <= Nav.next 3 2 < Z.of_nat 3.
Proof.
  apply (navigation_stays_on_positions 3 2). simpl. lia.
Defined.

(** ** Progress through the queue *)

Lemma progressRun_snoc (n : nat) (cs : list (bool * bool)) (c : bool * bool) (p : Progress) :
  progressRun n (cs ++ [c]) p = completePosition n (fst c) (snd c) (progressRun n cs p).
Proof. unfold progressRun. rewrite fold_left_app. reflexivity. Qed.

(** X16: a queue of [n + 1] positions is walked through once: after
    [k <= n] completions the trainer is at index [k] without having
    reloaded the queue, has counted [k] studied positions, with the
    correct and the auto-revealed ones among them; the next completion
    moves on by one position, or, at the last position, reloads the
    queue, returns to index 0 and clears the session statistics. *)
Theorem queue_traversed_once :
  forall (n : nat) (cs : list (bool * bool)),
    (length cs <= n)%nat ->
    let p := progressRun (S n) cs (mkProgress 0 emptySessionStats 0) in
    currentIndex p = length cs /\
    reloads p = 0%nat /\
    studied (sessionStats p) = length cs /\
    correct (sessionStats p) = length (filter (fun c => fst c = true) cs) /\
    autoRevealed (sessionStats p) = length (filter (fun c => snd c = true) cs) /\
    (correct (sessionStats p) <= studied (sessionStats p))%nat /\
    (autoRevealed (sessionStats p) <= studied (sessionStats p))%nat /\
    (forall c : bool * bool,
        completePosition (S n) (fst c) (snd c) p =
          if (length cs <? n)%nat
          then mkProgress (length cs + 1)
                 (countCompletion (fst c) (snd c) (sessionStats p)) 0
          else mkProgress 0 emptySessionStats 1).
Proof.
  intros n cs. induction cs as [| c cs IH] using rev_ind; intros Hlen p.
  - subst p. simpl. repeat split; try reflexivity; try lia.
    intros c. unfold completePosition. simpl currentIndex.
    destruct (Nat.ltb_spec 0 n), (Z.ltb_spec (Z.of_nat 0) (Z.of_nat (S n) - 1));
      try lia; reflexivity.
  - rewrite length_app in Hlen. simpl in Hlen.
    specialize (IH ltac:(lia)). cbv zeta in IH.
    destruct IH as (Hi & Hr & Hs & Hc & Ha & _ & _ & Hnext).
    subst p. rewrite progressRun_snoc, Hnext.
    destruct (Nat.ltb_spec (length cs) n); [| lia].
    rewrite !filter_app, !length_app, !filter_cons, !filter_nil. simpl.
    unfold countCompletion. simpl. rewrite Hs, Hc, Ha.
    pose proof (length_filter (fun c => fst c = true) cs).
    pose proof (length_filter (fun c => snd c = true) cs).
    destruct c as [[] []]; simpl; repeat case_decide; try congruence; simpl;
      (split; [lia |]); (split; [reflexivity |]); (split; [lia |]);
      (split; [lia |]); (split; [lia |]); (split; [lia |]); (split; [lia |]);
      intros c'; unfold completePosition; simpl currentIndex;
      destruct (Nat.ltb_spec (length cs + 1) n),
               (Z.ltb_spec (Z.of_nat (length cs + 1)) (Z.of_nat (S n) - 1));
      try lia; simpl; repeat f_equal; lia.
Qed.

Lemma queue_traversed_once_witness :
  currentIndex
    (progressRun 3 [(true, false); (false, true)] (mkProgress 0 emptySessionStats 0))
    = 2%nat.
Proof.
  apply (queue_traversed_once 2 [(true, false); (false, true)]). simpl. lia.
Defined.

(** ** Counters of the practice board *)

Lemma alter_S_facts (l : list nat) :
  forall (i a : nat),
    l !! i = Some a ->
    alter S i l !! i = Some (S a) /\
    list_sum (alter S i l) = S (list_sum l) /\
    tried (alter S i l) = (tried l + (if (a =? 0)%nat then 1 else 0))%nat.
Proof.
  unfold tried. induction l as [| x l IH]; intros i a H.
  - rewrite lookup_nil in H. discriminate.
  - destruct i as [| i]; simpl in H.
    + injection H as ->. simpl. split; [reflexivity |]. split; [reflexivity |].
      rewrite !filter_cons. destruct a as [| a]; simpl;
        repeat case_decide; try lia; simpl; lia.
    + destruct (IH i a H) as (H1 & H2 & H3).
      change (alter S (S i) (x :: l)) with (x :: alter S i l).
      split; [exact H1 |]. split.
      * change (list_sum (x :: alter S i l)) with (x + list_sum (alter S i l))%nat.
        rewrite H2. simpl. lia.
      * rewrite !filter_cons. case_decide; simpl; rewrite H3; lia.
Qed.

Lemma tried_le_length (l : list nat) : (tried l <= length l)%nat.
Proof. apply length_filter. Qed.

Lemma sessionSolved_consistent (l : list nat) (i a : nat) (id move : string)
    (assisted : bool) (s : TrainingSession) :
  l !! i = Some a ->
  session_consistent l s ->
  session_consistent (alter S i l) (sessionSolved id (S a) move assisted s).
Proof.
  intros Hl (H1 & H2 & H3 & H4 & H5 & H6 & H7).
  destruct (alter_S_facts l i a Hl) as (_ & Hsum & Htried).
  unfold session_consistent, sessionSolved.
  cbn [problems totalAttempts correctAnswers completedProblems].
  rewrite length_app, filter_app, length_app, filter_cons, filter_nil.
  cbn [log_solved]. case_decide; [| congruence]. cbn [length].
  rewrite Hsum, Htried.
  assert (Hc : ((if (S a =? 1)%nat then completedProblems s + 1
                 else completedProblems s)
                = completedProblems s + (if (a =? 0)%nat then 1 else 0))%nat).
  { destruct a as [| a]; simpl; lia. }
  rewrite Hc.
  repeat split; try lia.
  - destruct a as [| a']; simpl; lia.
  - apply Forall_app. split; [exact H7 |]. constructor; [cbn [log_attempts]; lia | constructor].
Qed.

Lemma sessionFailed_consistent (l : list nat) (i a : nat) (id move : string)
    (s : TrainingSession) :
  l !! i = Some a ->
  session_consistent l s ->
  session_consistent (alter S i l) (sessionFailed id (S a) move s).
Proof.
  intros Hl (H1 & H2 & H3 & H4 & H5 & H6 & H7).
  destruct (alter_S_facts l i a Hl) as (_ & Hsum & Htried).
  unfold session_consistent, sessionFailed.
  cbn [problems totalAttempts correctAnswers completedProblems].
  rewrite length_app, filter_app, length_app, filter_cons, filter_nil.
  cbn [log_solved]. case_decide; [congruence |]. cbn [length].
  rewrite Hsum, Htried.
  repeat split; try lia.
  apply Forall_app. split; [exact H7 |]. constructor; [cbn [log_attempts]; lia | constructor].
Qed.

Lemma boardStep_consistent (positions : list Position) (e : BoardEvent) (b : Board) :
  length (boardAttempts b) = length positions ->
  (forall s, currentSession b = Some s -> session_consistent (boardAttempts b) s) ->
  length (boardAttempts (boardStep positions e b)) = length positions /\
  (forall s, currentSession (boardStep positions e b) = Some s ->
             session_consistent (boardAttempts (boardStep positions e b)) s).
Proof.
  intros Hlen Hs. destruct e as [current src tgt | current |]; simpl.
  - destruct (positions !! current) as [pos |] eqn:E; [| split; assumption].
    assert (Hi : is_Some (boardAttempts b !! current)).
    { apply lookup_lt_is_Some. rewrite Hlen. eapply lookup_lt_Some. exact E. }
    destruct Hi as [a Ha].
    destruct (alter_S_facts _ _ _ Ha) as (Hnow & _ & _).
    unfold onPieceDrop. rewrite Hnow. simpl default.
    destruct (isCorrect pos src tgt); simpl; (split; [rewrite length_alter; exact Hlen |]);
      intros s Hsome; destruct (currentSession b) as [s0 |]; try discriminate;
      injection Hsome as <-.
    + apply sessionSolved_consistent; [exact Ha | apply Hs; reflexivity].
    + apply sessionFailed_consistent; [exact Ha | apply Hs; reflexivity].
  - destruct (positions !! current) as [pos |] eqn:E; [| split; assumption].
    assert (Hi : is_Some (boardAttempts b !! current)).
    { apply lookup_lt_is_Some. rewrite Hlen. eapply lookup_lt_Some. exact E. }
    destruct Hi as [a Ha].
    destruct (alter_S_facts _ _ _ Ha) as (Hnow & _ & _).
    unfold playBestMove.
    destruct (String.eqb (best_move pos) EmptyString); [split; assumption |].
    rewrite Hnow. simpl.
    split; [rewrite length_alter; exact Hlen |].
    intros s Hsome; destruct (currentSession b) as [s0 |]; try discriminate;
      injection Hsome as <-.
    apply sessionSolved_consistent; [exact Ha | apply Hs; reflexivity].
  - split; [exact Hlen |]. intros s [= <-].
    unfold session_consistent, startSession. simpl. repeat split; try lia.
    constructor.
Qed.

(** X15: the counters of the practice board after any sequence of
    drops, played best moves and session starts: the attempts array
    keeps the length of the positions; in the session, the log has one
    entry per counted attempt, each with an attempt number of at least
    1; the correct answers are the solved entries of the log; the
    completed problems are at most the correct answers and at most the
    number of positions; and the attempts of the session are at most
    the attempts counted by the board. *)
Theorem board_counters_consistent :
  forall (positions : list Position) (solvedFlags : list (option bool))
         (events : list BoardEvent),
    let b := boardRun positions events (mountBoard positions solvedFlags) in
    length (boardAttempts b) = length positions /\
    match currentSession b with
    | None => True
    | Some s =>
        length (problems s) = totalAttempts s /\
        correctAnswers s = length (filter (fun l => log_solved l = true) (problems s)) /\
        (correctAnswers s <= totalAttempts s)%nat /\
        (completedProblems s <= correctAnswers s)%nat /\
        (completedProblems s <= length positions)%nat /\
        (totalAttempts s <= list_sum (boardAttempts b))%nat /\
        Forall (fun l => (1 <= log_attempts l)%nat) (problems s)
    end.
Proof.
  intros positions solvedFlags events b.
  assert (H : length (boardAttempts b) = length positions /\
              (forall s, currentSession b = Some s ->
                         session_consistent (boardAttempts b) s)).
  { subst b. induction events as [| e events IH] using rev_ind.
    - simpl. split; [apply length_replicate | discriminate].
    - unfold boardRun in *. rewrite fold_left_app. simpl.
      destruct IH as [IH1 IH2]. apply boardStep_consistent; assumption. }
  destruct H as [Hlen Hs]. split; [exact Hlen |].
  destruct (currentSession b) as [s |] eqn:E; [| exact I].
  destruct (Hs s eq_refl) as (H1 & H2 & H3 & H4 & H5 & H6 & H7).
  pose proof (tried_le_length (boardAttempts b)) as Ht. rewrite Hlen in Ht.
  repeat split; try assumption; lia.
Qed.

(** ** Solved flags of the practice board *)











